(** * HyperContext validator (src/validators/validate.js)

    A shallow embedding of the validator script and the properties of its
    specification.  JavaScript strings are sequences of UTF-16 code units;
    the two finding arrays [errors] and [warnings] are threaded as explicit
    state; JavaScript exceptions are an explicit completion, so that the
    [try]/[catch] around the metadata checks is modelled as written.

    The regular expressions of the script are kept as syntax trees and run by
    a backtracking matcher that follows the ECMAScript matcher semantics.
    [JSON.parse] is a recursive-descent parser of the JSON grammar.  What the
    host leaves implementation-defined (case mapping, number printing, date
    parsing, the wording of exception messages, path handling) is gathered in
    the class [Runtime]. *)

From Stdlib Require Import List ZArith NArith Bool Arith Lia String Ascii.
Import ListNotations.

Set Implicit Arguments.
Set Warnings "-register-all".

(* [String] also exports a [length]; lists are meant throughout. *)
Abbreviation length := Datatypes.length (only parsing).

(* ================================================================== *)
(** ** JavaScript strings *)

Module JsString.

(** A string value: the sequence of its UTF-16 code units. *)
Definition jsstring := list N.

(** A string literal of the source, all of whose characters are ASCII. *)
Definition js (s : string) : jsstring :=
  map N_of_ascii (list_ascii_of_string s).

Fixpoint eqb (a b : jsstring) : bool :=
  match a, b with
  | [], [] => true
  | x :: a', y :: b' => N.eqb x y && eqb a' b'
  | _, _ => false
  end.

(** [String.prototype.startsWith] (position 0). *)
Fixpoint startsWith (s p : jsstring) {struct p} : bool :=
  match p, s with
  | [], _ => true
  | x :: p', y :: s' => N.eqb x y && startsWith s' p'
  | _ :: _, [] => false
  end.

(** [String.prototype.includes]: [x] occurs in [s] as a substring. *)
Fixpoint includes (s x : jsstring) : bool :=
  startsWith s x ||
  match s with
  | [] => false
  | _ :: s' => includes s' x
  end.

(** WhiteSpace and LineTerminator code points of ECMAScript: the set that
    [String.prototype.trim] strips and that [\s] matches. *)
Definition isWhiteSpace (c : N) : bool :=
  ((9 <=? c) && (c <=? 13) || (c =? 32) || (c =? 160) || (c =? 5760)
   || (8192 <=? c) && (c <=? 8202) || (c =? 8232) || (c =? 8233)
   || (c =? 8239) || (c =? 8287) || (c =? 12288) || (c =? 65279))%N.

Fixpoint trimStart (s : jsstring) : jsstring :=
  match s with
  | c :: s' => if isWhiteSpace c then trimStart s' else s
  | [] => []
  end.

Definition trimEnd (s : jsstring) : jsstring := rev (trimStart (rev s)).

(** [String.prototype.trim]. *)
Definition trim (s : jsstring) : jsstring := trimEnd (trimStart s).

(** [String.prototype.substring(p, q)] for [p <= q]. *)
Definition substring (s : jsstring) (p q : nat) : jsstring :=
  firstn (q - p) (skipn p s).

(** Decimal rendering of a non-negative integer, as a template literal
    prints an array length. *)
Definition digit (d : nat) : N := (48 + N.of_nat d)%N.

Fixpoint digits_fuel (fuel n : nat) (acc : jsstring) : jsstring :=
  match fuel with
  | O => acc
  | S fuel' =>
      let acc' := digit (n mod 10) :: acc in
      if n / 10 =? 0 then acc' else digits_fuel fuel' (n / 10) acc'
  end.

Definition of_nat (n : nat) : jsstring := digits_fuel (S n) n [].

(** [Array.prototype.join]. *)
Fixpoint join (sep : jsstring) (l : list jsstring) : jsstring :=
  match l with
  | [] => []
  | [x] => x
  | x :: l' => x ++ sep ++ join sep l'
  end.

End JsString.
Import JsString.

(* ================================================================== *)
(** ** Regular expressions *)

Module RegExp.

(** The constructs the script's four regular expressions use.  None of them
    carries a flag, so matching is case-sensitive, on code units, and [^]
    and [$] are the two ends of the input. *)
Inductive regex : Type :=
| Empty
| Char  (p : N -> bool)                 (* a class of code units *)
| Seq   (a b : regex)
| Alt   (a b : regex)
| Star  (greedy : bool) (r : regex)     (* [r*] and [r*?] *)
| Group (i : nat) (r : regex)           (* capturing group number [i] *)
| Bol                                   (* [^] *)
| Eol.                                  (* [$] *)

Definition Plus (r : regex) : regex := Seq r (Star true r).

(** A literal run of characters. *)
Fixpoint Lit (w : jsstring) : regex :=
  match w with
  | [] => Empty
  | c :: w' => Seq (Char (N.eqb c)) (Lit w')
  end.

(** The matcher state: the end index reached, the input that remains from
    there, and the captures made so far. *)
Record mstate : Type := MState {
  endIndex : nat;
  rest     : jsstring;
  captures : list (nat * jsstring)
}.

Definition orelse {A} (x y : option A) : option A :=
  match x with Some _ => x | None => y end.

(** The loop of a repetition whose body is matched by [body]: at most [n]
    more rounds, each of which must consume input; a greedy star tries
    another round before it lets the rest of the pattern go on, a lazy one
    after. *)
Fixpoint star_loop (body : mstate -> (mstate -> option mstate) -> option mstate)
  (greedy : bool) (k : mstate -> option mstate) (n : nat) (s : mstate)
  {struct n} : option mstate :=
  match n with
  | O => k s
  | S n' =>
      let round :=
        body s (fun s' =>
          if length (rest s') <? length (rest s)
          then star_loop body greedy k n' s' else None) in
      if greedy then orelse round (k s) else orelse (k s) round
  end.

(** The backtracking matcher in continuation style: [rmatch r s k] tries to
    match [r] at state [s] and hands every way of doing so, in priority
    order, to [k] until [k] accepts.  A round of a repetition that consumed
    nothing is rejected, so a star makes at most one round for each
    remaining code unit. *)
Fixpoint rmatch (r : regex) (s : mstate) (k : mstate -> option mstate)
  {struct r} : option mstate :=
  match r with
  | Empty => k s
  | Char p =>
      match rest s with
      | c :: t => if p c then k (MState (S (endIndex s)) t (captures s)) else None
      | [] => None
      end
  | Seq a b => rmatch a s (fun s' => rmatch b s' k)
  | Alt a b => orelse (rmatch a s k) (rmatch b s k)
  | Star greedy r' => star_loop (rmatch r') greedy k (length (rest s)) s
  | Group i r' =>
      rmatch r' s (fun s' =>
        k (MState (endIndex s') (rest s')
             ((i, firstn (endIndex s' - endIndex s) (rest s)) :: captures s')))
  | Bol => if endIndex s =? 0 then k s else None
  | Eol => match rest s with [] => k s | _ :: _ => None end
  end.

(** A match attempt anchored at index [i], where [t] is the input from [i]
    on (a sticky match). *)
Definition matchAt (r : regex) (i : nat) (t : jsstring) : option mstate :=
  rmatch r (MState i t []) Some.

(** [RegExp.prototype.exec] on a regular expression without flags: the
    first index, from 0 on, at which the pattern matches. *)
Fixpoint execFrom (r : regex) (i : nat) (t : jsstring) : option mstate :=
  match matchAt r i t with
  | Some m => Some m
  | None =>
      match t with
      | [] => None
      | _ :: t' => execFrom r (S i) t'
      end
  end.

Definition exec (r : regex) (s : jsstring) : option mstate := execFrom r 0 s.

(** The value of capture [i] of a match (the latest one made). *)
Fixpoint capture (i : nat) (c : list (nat * jsstring)) : option jsstring :=
  match c with
  | [] => None
  | (j, w) :: c' => if i =? j then Some w else capture i c'
  end.

(** [s.match(r)[1]] for a pattern whose group 1 takes part in every match;
    [None] when [s.match(r)] is [null]. *)
Definition match1 (r : regex) (s : jsstring) : option jsstring :=
  match exec r s with
  | Some m => Some (match capture 1 (captures m) with Some w => w | None => [] end)
  | None => None
  end.

(** [RegExp.prototype.test]. *)
Definition test (r : regex) (s : jsstring) : bool :=
  match exec r s with Some _ => true | None => false end.

(** The loop of [String.prototype.split] with a regular-expression
    separator and no limit, on a non-empty string [s]: [p] is the start of
    the piece being collected, [q] the index at which a separator is looked
    for; a separator that ends where the piece starts is passed over.  Every
    two rounds move [q] forward, which bounds the loop. *)
Fixpoint splitLoop (r : regex) (s : jsstring) (fuel p q : nat) : list jsstring :=
  match fuel with
  | O => [substring s p (length s)]
  | S fuel' =>
      if q <? length s then
        match matchAt r q (skipn q s) with
        | None => splitLoop r s fuel' p (S q)
        | Some m =>
            let e := Nat.min (endIndex m) (length s) in
            if e =? p then splitLoop r s fuel' p (S q)
            else substring s p q :: splitLoop r s fuel' e e
        end
      else [substring s p (length s)]
  end.

(** [s.split(r)]: the empty string splits into nothing when the separator
    matches it and into itself otherwise. *)
Definition split (r : regex) (s : jsstring) : list jsstring :=
  match s with
  | [] => match matchAt r 0 [] with Some _ => [] | None => [[]] end
  | _ :: _ => splitLoop r s (2 * length s + 1) 0 0
  end.

End RegExp.
Import RegExp.

(* ================================================================== *)
(** ** JSON values and [JSON.parse] *)

Module Json.

(** A JSON number literal, kept exactly: its value is
    [mantissa * 10 ^ exponent], negated when [negative]. *)
Record number : Type := Number {
  negative : bool;
  mantissa : N;
  exponent : Z
}.

(** The values [JSON.parse] builds.  An object keeps its members in source
    order, duplicates included. *)
Inductive json : Type :=
| JNull
| JBool (b : bool)
| JNum  (n : number)
| JStr  (s : jsstring)
| JArr  (l : list json)
| JObj  (m : list (jsstring * json)).

(** The own property [k] of an object built from the members [m]: a later
    member of the same name replaces an earlier one. *)
Fixpoint lookup (k : jsstring) (m : list (jsstring * json)) : option json :=
  match m with
  | [] => None
  | (k', v) :: m' =>
      match lookup k m' with
      | Some x => Some x
      | None => if JsString.eqb k k' then Some v else None
      end
  end.

(** Whether the literal denotes the Number [0] (or [-0]): the literal is
    rounded to the nearest double, ties to even, and the least positive double
    is [2^-1074], so exactly the magnitudes up to [2^-1075] round to zero. *)
Definition isZero (n : number) : bool :=
  (mantissa n =? 0)%N
  || ((exponent n <? 0)%Z
      && (Z.of_N (mantissa n) * 2 ^ 1075 <=? 10 ^ (- exponent n))%Z).

(** *** The parser *)

(** Outcome of a parsing function: a value and the input left, a syntax
    error, or recursion budget used up. *)
Inductive presult (A : Type) : Type :=
| Parsed (a : A) (r : jsstring)
| Syntax
| Fuel.
Arguments Syntax {A}.
Arguments Fuel {A}.

(** JSON white space: tab, line feed, carriage return, space. *)
Definition isJsonSpace (c : N) : bool :=
  ((c =? 9) || (c =? 10) || (c =? 13) || (c =? 32))%N.

Fixpoint skip_ws (s : jsstring) : jsstring :=
  match s with
  | c :: s' => if isJsonSpace c then skip_ws s' else s
  | [] => []
  end.

Definition isDigit (c : N) : bool := ((48 <=? c) && (c <=? 57))%N.

Definition hexval (c : N) : option N :=
  if isDigit c then Some (c - 48)%N
  else if ((97 <=? c) && (c <=? 102))%N then Some (c - 87)%N
  else if ((65 <=? c) && (c <=? 70))%N then Some (c - 55)%N
  else None.

Definition hex4 (a b c d : N) : option N :=
  match hexval a, hexval b, hexval c, hexval d with
  | Some x, Some y, Some z, Some w => Some (((x * 16 + y) * 16 + z) * 16 + w)%N
  | _, _, _, _ => None
  end.

(** The code unit a two-character escape stands for. *)
Definition simple_escape (c : N) : option N :=
  if (c =? 34)%N then Some 34%N              (* quote *)
  else if (c =? 92)%N then Some 92%N         (* backslash *)
  else if (c =? 47)%N then Some 47%N         (* slash *)
  else if (c =? 98)%N then Some 8%N          (* b *)
  else if (c =? 102)%N then Some 12%N        (* f *)
  else if (c =? 110)%N then Some 10%N        (* n *)
  else if (c =? 114)%N then Some 13%N        (* r *)
  else if (c =? 116)%N then Some 9%N         (* t *)
  else None.

Definition consChar (c : N) (r : option (jsstring * jsstring))
  : option (jsstring * jsstring) :=
  match r with
  | Some (w, t) => Some (c :: w, t)
  | None => None
  end.

(** The characters of a string after its opening quote, up to and including
    the closing quote. *)
Fixpoint parse_chars (s : jsstring) : option (jsstring * jsstring) :=
  match s with
  | [] => None
  | c :: t =>
      if (c =? 34)%N then Some ([], t)
      else if (c =? 92)%N then
        match t with
        | [] => None
        | e :: t' =>
            match simple_escape e with
            | Some x => consChar x (parse_chars t')
            | None =>
                if (e =? 117)%N then
                  match t' with
                  | h1 :: h2 :: h3 :: h4 :: t'' =>
                      match hex4 h1 h2 h3 h4 with
                      | Some u => consChar u (parse_chars t'')
                      | None => None
                      end
                  | _ => None
                  end
                else None
            end
        end
      else if (c <? 32)%N then None
      else consChar c (parse_chars t)
  end.

(** The longest run of decimal digits at the head of the input, as the value
    it adds to [acc], with how many digits there were. *)
Fixpoint span_digits (s : jsstring) (acc : N) (count : nat) : N * nat * jsstring :=
  match s with
  | c :: t =>
      if isDigit c then span_digits t (acc * 10 + (c - 48))%N (S count)
      else (acc, count, s)
  | [] => (acc, count, [])
  end.

(** The integer part: [0], or a digit from 1 to 9 followed by digits. *)
Definition parse_int (s : jsstring) : option (N * jsstring) :=
  match s with
  | c :: t =>
      if (c =? 48)%N then Some (0%N, t)
      else if isDigit c then
        let '(m, _, r) := span_digits s 0 0 in Some (m, r)
      else None
  | [] => None
  end.

(** The optional fraction: the mantissa extended by its digits, and their
    number. *)
Definition parse_frac (m : N) (s : jsstring) : option (N * nat * jsstring) :=
  match s with
  | c :: t =>
      if (c =? 46)%N then
        let '(m', n, r) := span_digits t m 0 in
        match n with O => None | S _ => Some (m', n, r) end
      else Some (m, O, s)
  | [] => Some (m, O, [])
  end.

Definition parse_exp_digits (neg : bool) (s : jsstring) : option (Z * jsstring) :=
  let '(e, n, r) := span_digits s 0 0 in
  match n with
  | O => None
  | S _ => Some (if neg then (- Z.of_N e)%Z else Z.of_N e, r)
  end.

(** The optional exponent part. *)
Definition parse_exp (s : jsstring) : option (Z * jsstring) :=
  match s with
  | c :: t =>
      if ((c =? 101) || (c =? 69))%N then
        match t with
        | sg :: t' =>
            if (sg =? 43)%N then parse_exp_digits false t'
            else if (sg =? 45)%N then parse_exp_digits true t'
            else parse_exp_digits false t
        | [] => None
        end
      else Some (0%Z, s)
  | [] => Some (0%Z, [])
  end.

Definition parse_unsigned (neg : bool) (s : jsstring) : option (number * jsstring) :=
  match parse_int s with
  | None => None
  | Some (m, r) =>
      match parse_frac m r with
      | None => None
      | Some (m', fd, r') =>
          match parse_exp r' with
          | None => None
          | Some (e, r'') => Some (Number neg m' (e - Z.of_nat fd), r'')
          end
      end
  end.

Definition parse_number (s : jsstring) : option (number * jsstring) :=
  match s with
  | c :: t => if (c =? 45)%N then parse_unsigned true t else parse_unsigned false s
  | [] => None
  end.

(** A keyword ([true], [false], [null]) at the head of the input. *)
Definition keyword (w : jsstring) (v : json) (s : jsstring) : presult json :=
  if startsWith s w then Parsed v (skipn (length w) s) else Syntax.

(** A value, a non-empty element list after [[], and a non-empty member list
    after [{].  [acc] holds what the list has so far, latest first. *)
Fixpoint parse_value (fuel : nat) (s : jsstring) {struct fuel} : presult json :=
  match fuel with
  | O => Fuel
  | S fuel' =>
      match skip_ws s with
      | [] => Syntax
      | c :: t =>
          if (c =? 123)%N then                      (* { *)
            match skip_ws t with
            | c' :: t' =>
                if (c' =? 125)%N then Parsed (JObj []) t'
                else parse_members fuel' t []
            | [] => Syntax
            end
          else if (c =? 91)%N then                  (* [ *)
            match skip_ws t with
            | c' :: t' =>
                if (c' =? 93)%N then Parsed (JArr []) t'
                else parse_elements fuel' t []
            | [] => Syntax
            end
          else if (c =? 34)%N then
            match parse_chars t with
            | Some (w, r) => Parsed (JStr w) r
            | None => Syntax
            end
          else if (c =? 116)%N then keyword (js "true") (JBool true) (c :: t)
          else if (c =? 102)%N then keyword (js "false") (JBool false) (c :: t)
          else if (c =? 110)%N then keyword (js "null") JNull (c :: t)
          else
            match parse_number (c :: t) with
            | Some (n, r) => Parsed (JNum n) r
            | None => Syntax
            end
      end
  end

with parse_elements (fuel : nat) (s : jsstring) (acc : list json) {struct fuel}
  : presult json :=
  match fuel with
  | O => Fuel
  | S fuel' =>
      match parse_value fuel' s with
      | Parsed v r =>
          match skip_ws r with
          | c :: t =>
              if (c =? 44)%N then parse_elements fuel' t (v :: acc)
              else if (c =? 93)%N then Parsed (JArr (rev (v :: acc))) t
              else Syntax
          | [] => Syntax
          end
      | Syntax => Syntax
      | Fuel => Fuel
      end
  end

with parse_members (fuel : nat) (s : jsstring) (acc : list (jsstring * json))
  {struct fuel} : presult json :=
  match fuel with
  | O => Fuel
  | S fuel' =>
      match skip_ws s with
      | q :: t =>
          if (q =? 34)%N then
            match parse_chars t with
            | Some (k, r) =>
                match skip_ws r with
                | c :: t' =>
                    if (c =? 58)%N then
                      match parse_value fuel' t' with
                      | Parsed v r' =>
                          match skip_ws r' with
                          | d :: t'' =>
                              if (d =? 44)%N then parse_members fuel' t'' ((k, v) :: acc)
                              else if (d =? 125)%N
                              then Parsed (JObj (rev ((k, v) :: acc))) t''
                              else Syntax
                          | [] => Syntax
                          end
                      | Syntax => Syntax
                      | Fuel => Fuel
                      end
                    else Syntax
                | [] => Syntax
                end
            | None => Syntax
            end
          else Syntax
      | [] => Syntax
      end
  end.

(** Every call of the three functions that follows another without input
    consumed in between is one of at most two, so this budget is never used
    up (lemma [parse_value_fuel] below). *)
Definition budget (s : jsstring) : nat := 2 * length s + 2.

(** [JSON.parse(s)]: [None] stands for the [SyntaxError] it throws. *)
Definition JSON_parse (s : jsstring) : option json :=
  match parse_value (budget s) s with
  | Parsed v r =>
      match skip_ws r with
      | [] => Some v
      | _ :: _ => None
      end
  | Syntax => None
  | Fuel => None
  end.

End Json.
Import Json.

(* ================================================================== *)
(** ** Exceptions and the host *)

(** The places where the metadata checks can raise a [TypeError]. *)
Inductive type_error : Type :=
| ReadPropertyOfNull (key : jsstring)   (* [null[key]] *)
| NotAFunction                          (* [metadata.summary.split] is not callable *)
| NotPrimitive.                         (* an object has no usable [toString]/[valueOf] *)

Inductive exn : Type :=
| SyntaxError (text : jsstring)         (* [JSON.parse] rejected [text] *)
| TypeError (t : type_error).

(** How an expression completes. *)
Inductive completion (A : Type) : Type :=
| Normal (a : A)
| Throw (e : exn).
Arguments Throw {A} e.

(** What ECMAScript and Node leave to the implementation. *)
Class Runtime : Type := {
  (** [String.prototype.toLowerCase] (Unicode case mapping). *)
  String_toLowerCase : jsstring -> jsstring;
  (** Number::toString of the double a literal denotes. *)
  Number_toString : number -> jsstring;
  (** Whether [Date.parse] of a string is [NaN]. *)
  Date_parse_isNaN : jsstring -> bool;
  (** Whether [TimeClip] of the double a literal denotes is [NaN]. *)
  TimeClip_isNaN : number -> bool;
  (** The [message] of an exception. *)
  Error_message : exn -> jsstring;
  (** [path.basename]. *)
  path_basename : jsstring -> jsstring
}.

(* ================================================================== *)
(** ** The two finding arrays and the checks' monad *)

(** The arrays [errors] and [warnings] of [validate], oldest entry first. *)
Record findings : Type := Findings {
  errors   : list jsstring;
  warnings : list jsstring
}.

Definition no_findings : findings := Findings [] [].

(** A statement of [validate]: it may push onto the two arrays and may throw;
    what was pushed before a throw stays pushed. *)
Definition M (A : Type) : Type := findings -> findings * completion A.

Definition ret {A} (a : A) : M A := fun s => (s, Normal a).

Definition bind {A B} (m : M A) (f : A -> M B) : M B :=
  fun s =>
    match m s with
    | (s', Normal a) => f a s'
    | (s', Throw e) => (s', Throw e)
    end.

Definition throw {A} (e : exn) : M A := fun s => (s, Throw e).

(** An expression evaluated inside a statement. *)
Definition eval {A} (c : completion A) : M A := fun s => (s, c).

(** [errors.push(msg)] and [warnings.push(msg)]. *)
Definition push_error (msg : jsstring) : M unit :=
  fun s => (Findings (errors s ++ [msg]) (warnings s), Normal tt).

Definition push_warning (msg : jsstring) : M unit :=
  fun s => (Findings (errors s) (warnings s ++ [msg]), Normal tt).

(** [try { body } catch (e) { handler(e) }]. *)
Definition try_catch {A} (body : M A) (handler : exn -> M A) : M A :=
  fun s =>
    match body s with
    | (s', Normal a) => (s', Normal a)
    | (s', Throw e) => handler e s'
    end.

(** [for (const x of l) { body(x) }]. *)
Fixpoint for_of {A} (l : list A) (body : A -> M unit) : M unit :=
  match l with
  | [] => ret tt
  | x :: l' => bind (body x) (fun _ => for_of l' body)
  end.

(** [if (c) { m }] without an [else]. *)
Definition when (c : bool) (m : M unit) : M unit := if c then m else ret tt.

Declare Scope js_scope.
Delimit Scope js_scope with js_m.
Notation "x <- m ;; k" := (bind m (fun x => k))
  (at level 61, m at next level, right associativity) : js_scope.
Notation "m ;; k" := (bind m (fun _ => k))
  (at level 61, right associativity) : js_scope.
Open Scope js_scope.

(* ================================================================== *)
(** ** Values and conversions *)

Section Values.
Context {rt : Runtime}.

(** The result of reading a property: [None] is [undefined]. *)
Definition value := option json.

(** [v[key]] for a key that no built-in prototype defines, which holds of
    every key [validate] reads: [null] has no properties, an object answers
    with its own member, and the wrappers of the other values have none of
    that name. *)
Definition Get (v : json) (key : jsstring) : completion value :=
  match v with
  | JNull => Throw (TypeError (ReadPropertyOfNull key))
  | JObj m => Normal (lookup key m)
  | JBool _ | JNum _ | JStr _ | JArr _ => Normal None
  end.

(** ToBoolean. *)
Definition truthy (v : value) : bool :=
  match v with
  | None => false
  | Some JNull => false
  | Some (JBool b) => b
  | Some (JNum n) => negb (isZero n)
  | Some (JStr s) => match s with [] => false | _ :: _ => true end
  | Some (JArr _) => true
  | Some (JObj _) => true
  end.

(** ToString of a parsed value.  An array joins its elements with commas,
    [null] elements printing as nothing; an object prints through
    [Object.prototype.toString] unless a member named [toString] (never a
    function in parsed JSON) hides it, in which case neither that member nor
    [valueOf] yields a primitive and the conversion throws. *)
Fixpoint ToString_json (v : json) : completion jsstring :=
  match v with
  | JNull => Normal (js "null")
  | JBool true => Normal (js "true")
  | JBool false => Normal (js "false")
  | JNum n => Normal (Number_toString n)
  | JStr s => Normal s
  | JArr l =>
      match
        (fix elements (l : list json) : completion (list jsstring) :=
           match l with
           | [] => Normal []
           | x :: l' =>
               match (match x with JNull => Normal [] | _ => ToString_json x end) with
               | Throw e => Throw e
               | Normal w =>
                   match elements l' with
                   | Throw e => Throw e
                   | Normal ws => Normal (w :: ws)
                   end
               end
           end) l
      with
      | Throw e => Throw e
      | Normal ws => Normal (join (js ",") ws)
      end
  | JObj m =>
      match lookup (js "toString") m with
      | Some _ => Throw (TypeError NotPrimitive)
      | None => Normal (js "[object Object]")
      end
  end.

Definition ToString (v : value) : completion jsstring :=
  match v with
  | None => Normal (js "undefined")
  | Some j => ToString_json j
  end.

(** [isNaN(new Date(v).getTime())]: a string is parsed as a date, an array
    or object is first converted to its string, every other value is
    converted to a number and clipped to the time range. *)
Definition Date_isNaN (v : value) : completion bool :=
  match v with
  | None => Normal true
  | Some JNull => Normal false
  | Some (JBool _) => Normal false
  | Some (JNum n) => Normal (TimeClip_isNaN n)
  | Some (JStr s) => Normal (Date_parse_isNaN s)
  | Some (JArr _ as j) | Some (JObj _ as j) =>
      match ToString_json j with
      | Throw e => Throw e
      | Normal s => Normal (Date_parse_isNaN s)
      end
  end.

(** [v !== s] for a string [s]. *)
Definition strict_ne (v : value) (s : jsstring) : bool :=
  match v with
  | Some (JStr w) => negb (JsString.eqb w s)
  | _ => true
  end.

(** [l.includes(v)] for an array [l] of strings. *)
Definition Array_includes (l : list jsstring) (v : value) : bool :=
  match v with
  | Some (JStr w) => existsb (JsString.eqb w) l
  | _ => false
  end.

End Values.

(* ================================================================== *)
(** ** The validator: constants and patterns *)

Definition REQUIRED_BLOCKS : list jsstring :=
  [js "hc-metadata"; js "hc-instructions"; js "hc-human-docs"].

Definition VALID_TYPES : list jsstring :=
  [js "registry"; js "skill"; js "artifact"; js "identity"; js "framework"].

Definition REQUIRED_METADATA_FIELDS : list jsstring :=
  [js "hc_version"; js "hc_type"; js "artifact_id"; js "version";
   js "created"; js "updated"; js "summary"].

(** The double quote character. *)
Definition dquote : jsstring := [34%N].

(** The text [id=] followed by [blockId] in double quotes. *)
Definition idAttribute (blockId : jsstring) : jsstring :=
  js "id=" ++ dquote ++ blockId ++ dquote.

(** A sequence of terms. *)
Fixpoint Cat (l : list regex) : regex :=
  match l with
  | [] => Empty
  | [r] => r
  | r :: l' => Seq r (Cat l')
  end.

Definition notGt (c : N) : bool := negb (c =? 62)%N.               (* [^>] *)
Definition anyChar (c : N) : bool := isWhiteSpace c || negb (isWhiteSpace c). (* [\s\S] *)
Definition lowerDigitDash (c : N) : bool :=                         (* [a-z0-9-] *)
  ((97 <=? c) && (c <=? 122) || (48 <=? c) && (c <=? 57) || (c =? 45))%N.
Definition decimalDigit (c : N) : bool := ((48 <=? c) && (c <=? 57))%N.  (* \d *)

(** The shape shared by the three block patterns: an opening tag [opening]
    that carries the identifier among its attributes, the content captured
    lazily as group 1, and the closing tag [closing]. *)
Definition blockPattern (opening blockId closing : jsstring) : regex :=
  Cat [Lit opening; Star true (Char notGt); Lit (idAttribute blockId);
       Star true (Char notGt); Lit (js ">");
       Group 1 (Star false (Char anyChar)); Lit closing].

(** [/<script[^>]*id="hc-metadata"[^>]*>([\s\S]*?)<\/script>/] *)
Definition metadataPattern : regex :=
  blockPattern (js "<script") (js "hc-metadata") (js "</script>").

(** [/<script[^>]*id="hc-instructions"[^>]*>([\s\S]*?)<\/script>/] *)
Definition instructionsPattern : regex :=
  blockPattern (js "<script") (js "hc-instructions") (js "</script>").

(** [/<div[^>]*id="hc-human-docs"[^>]*>([\s\S]*?)<\/div>/] *)
Definition humanDocsPattern : regex :=
  blockPattern (js "<div") (js "hc-human-docs") (js "</div>").

(** [/^hc-(registry|skill|artifact|identity|framework)-[a-z0-9-]+-\d+$/] *)
Definition idPattern : regex :=
  Cat [Bol; Lit (js "hc-");
       Group 1 (Alt (Lit (js "registry")) (Alt (Lit (js "skill"))
                (Alt (Lit (js "artifact")) (Alt (Lit (js "identity"))
                     (Lit (js "framework"))))));
       Lit (js "-"); Plus (Char lowerDigitDash); Lit (js "-");
       Plus (Char decimalDigit); Eol].

(** [/\s+/] *)
Definition whitespaceRun : regex := Plus (Char isWhiteSpace).

(** *** Messages *)

Definition missingDoctype : jsstring :=
  js "Missing HTML5 doctype (<!DOCTYPE html>)".

Definition missingBlock (blockId : jsstring) : jsstring :=
  js "Missing required block: #" ++ blockId.

Definition missingField (field : jsstring) : jsstring :=
  js "Missing required metadata field: " ++ field.

Definition versionWarning (found : jsstring) : jsstring :=
  js "hc_version should be " ++ dquote ++ js "1.1" ++ dquote ++ js ", found "
  ++ dquote ++ found ++ dquote.

Definition invalidType (found : jsstring) : jsstring :=
  js "Invalid hc_type: " ++ found ++ js ". Must be one of: "
  ++ join (js ", ") VALID_TYPES.

Definition idFormatWarning : jsstring :=
  js "artifact_id format should be: hc-[type]-[slug]-[timestamp]".

Definition invalidTimestamp (tsField found : jsstring) : jsstring :=
  js "Invalid " ++ tsField ++ js " timestamp: " ++ found.

Definition shortSummary (wordCount : nat) : jsstring :=
  js "Summary seems short (" ++ of_nat wordCount
  ++ js " words). Aim for 50-100 tokens.".

Definition invalidJson (message : jsstring) : jsstring :=
  js "Invalid JSON in hc-metadata: " ++ message.

Definition shortInstructions : jsstring :=
  js "hc-instructions seems very short. Include detailed steps.".

Definition noSteps : jsstring :=
  js "hc-instructions should include numbered steps".

Definition shortHumanDocs : jsstring :=
  js "hc-human-docs seems very short. Include comprehensive documentation.".

(* ================================================================== *)
(** ** The validator: the checks of [validate] (lines 29 to 114) *)

Section Checks.
Context {rt : Runtime}.

(** Lines 30 to 32. *)
Definition check_doctype (content : jsstring) : M unit :=
  when (negb (startsWith (String_toLowerCase (trim content)) (js "<!doctype html>")))
       (push_error missingDoctype).

(** Lines 35 to 39. *)
Definition check_blocks (content : jsstring) : M unit :=
  for_of REQUIRED_BLOCKS (fun blockId =>
    when (negb (includes content (idAttribute blockId)))
         (push_error (missingBlock blockId))).

(** Line 45: [JSON.parse] throws a [SyntaxError] on text that is not JSON. *)
Definition parse_metadata (text : jsstring) : M json :=
  match JSON_parse text with
  | Some metadata => ret metadata
  | None => throw (SyntaxError text)
  end.

(** Lines 48 to 52. *)
Definition check_required_fields (metadata : json) : M unit :=
  for_of REQUIRED_METADATA_FIELDS (fun field =>
    v <- eval (Get metadata field) ;;
    when (negb (truthy v)) (push_error (missingField field))).

(** Lines 55 to 57. *)
Definition check_version (metadata : json) : M unit :=
  v <- eval (Get metadata (js "hc_version")) ;;
  if truthy v then
    v' <- eval (Get metadata (js "hc_version")) ;;
    if strict_ne v' (js "1.1") then
      v'' <- eval (Get metadata (js "hc_version")) ;;
      found <- eval (ToString v'') ;;
      push_warning (versionWarning found)
    else ret tt
  else ret tt.

(** Lines 60 to 62. *)
Definition check_type (metadata : json) : M unit :=
  v <- eval (Get metadata (js "hc_type")) ;;
  if truthy v then
    v' <- eval (Get metadata (js "hc_type")) ;;
    if negb (Array_includes VALID_TYPES v') then
      v'' <- eval (Get metadata (js "hc_type")) ;;
      found <- eval (ToString v'') ;;
      push_error (invalidType found)
    else ret tt
  else ret tt.

(** Lines 65 to 70: [idPattern.test] converts its argument to a string. *)
Definition check_artifact_id (metadata : json) : M unit :=
  v <- eval (Get metadata (js "artifact_id")) ;;
  if truthy v then
    v' <- eval (Get metadata (js "artifact_id")) ;;
    text <- eval (ToString v') ;;
    when (negb (test idPattern text)) (push_warning idFormatWarning)
  else ret tt.

(** Lines 73 to 80. *)
Definition check_timestamps (metadata : json) : M unit :=
  for_of [js "created"; js "updated"] (fun tsField =>
    v <- eval (Get metadata tsField) ;;
    if truthy v then
      v' <- eval (Get metadata tsField) ;;
      nan <- eval (Date_isNaN v') ;;
      if nan : bool then
        v'' <- eval (Get metadata tsField) ;;
        found <- eval (ToString v'') ;;
        push_error (invalidTimestamp tsField found)
      else ret tt
    else ret tt).

(** [summary.split(/\s+/)]: only a string has a [split] method. *)
Definition summary_split (summary : value) : completion (list jsstring) :=
  match summary with
  | Some (JStr s) => Normal (split whitespaceRun s)
  | Some JNull | None => Throw (TypeError (ReadPropertyOfNull (js "split")))
  | Some _ => Throw (TypeError NotAFunction)
  end.

(** Lines 83 to 88. *)
Definition check_summary (metadata : json) : M unit :=
  v <- eval (Get metadata (js "summary")) ;;
  if truthy v then
    v' <- eval (Get metadata (js "summary")) ;;
    words <- eval (summary_split v') ;;
    let wordCount := length words in
    when (wordCount <? 10) (push_warning (shortSummary wordCount))
  else ret tt.

(** Lines 45 to 88: the body of the [try]. *)
Definition metadata_checks (text : jsstring) : M unit :=
  metadata <- parse_metadata text ;;
  check_required_fields metadata ;;
  check_version metadata ;;
  check_type metadata ;;
  check_artifact_id metadata ;;
  check_timestamps metadata ;;
  check_summary metadata.

(** Lines 42 to 93. *)
Definition check_metadata (content : jsstring) : M unit :=
  match match1 metadataPattern content with
  | Some text =>
      try_catch (metadata_checks text)
                (fun e => push_error (invalidJson (Error_message e)))
  | None => ret tt
  end.

(** Lines 96 to 105. *)
Definition check_instructions (content : jsstring) : M unit :=
  match match1 instructionsPattern content with
  | Some text =>
      let instructions := trim text in
      when (length instructions <? 100) (push_warning shortInstructions) ;;
      when (negb (includes instructions (js "Step"))) (push_warning noSteps)
  | None => ret tt
  end.

(** Lines 108 to 114. *)
Definition check_human_docs (content : jsstring) : M unit :=
  match match1 humanDocsPattern content with
  | Some text =>
      let docs := trim text in
      when (length docs <? 200) (push_warning shortHumanDocs)
  | None => ret tt
  end.

(** Lines 29 to 114, in order. *)
Definition validate_checks (content : jsstring) : M unit :=
  check_doctype content ;;
  check_blocks content ;;
  check_metadata content ;;
  check_instructions content ;;
  check_human_docs content.

End Checks.

(* ================================================================== *)
(** ** The validator: report, [validate] and the main loop *)

(** A line written with [console.log] or [console.error]. *)
Inductive console : Type :=
| Log (line : jsstring)
| LogError (line : jsstring).

(** How the process ends. *)
Inductive termination : Type :=
| ExitWith (code : Z)                   (* [process.exit(code)] *)
| Uncaught (e : exn).                   (* an exception nobody caught *)

(** How a call of [validate] ends: it returns, or the process ends in it. *)
Inductive outcome : Type :=
| Returned (result : Z)
| Terminated (t : termination).

(** [fs.readFileSync(path, 'utf-8')]: the decoded text of the file, or the
    message of the exception thrown. *)
Definition filesystem : Type := jsstring -> jsstring + jsstring.

Definition newline : jsstring := [10%N].

Definition validMark : jsstring := [9989%N].              (* U+2705 *)
Definition crossMark : jsstring := [10060%N].             (* U+274C *)
Definition warningSign : jsstring := [9888%N; 65039%N].   (* U+26A0 U+FE0F *)

Definition item (finding : jsstring) : console := Log (js "   - " ++ finding).

Definition summaryLine (f : findings) : jsstring :=
  newline ++ js "Summary: " ++ of_nat (length (errors f)) ++ js " error(s), "
  ++ of_nat (length (warnings f)) ++ js " warning(s)".

(** Lines 117 to 136: what is printed about a file called [name] once its
    findings are known, and the value [validate] returns. *)
Definition report (name : jsstring) (f : findings) : list console * Z :=
  let header := Log (newline ++ js "Validating: " ++ name ++ newline) in
  if (length (errors f) =? 0) && (length (warnings f) =? 0) then
    ([header; Log (validMark ++ js " Valid HC file!")], 0%Z)
  else
    (header
     :: (if 0 <? length (errors f)
         then Log (crossMark ++ js " Errors:") :: map item (errors f) else [])
     ++ (if 0 <? length (warnings f)
         then Log (newline ++ warningSign ++ js "  Warnings:") :: map item (warnings f)
         else [])
     ++ [Log (summaryLine f)],
     if 0 <? length (errors f) then 1%Z else 0%Z).

Section Program.
Context {rt : Runtime}.
Variable fs : filesystem.

(** [validate(filePath)]. *)
Definition validate (filePath : jsstring) : list console * outcome :=
  match fs filePath with
  | inr message =>
      ([LogError (js "Error reading file: " ++ message)], Terminated (ExitWith 1))
  | inl content =>
      match validate_checks content no_findings with
      | (f, Normal _) =>
          let '(out, result) := report (path_basename filePath) f in
          (out, Returned result)
      | (_, Throw e) => ([], Terminated (Uncaught e))
      end
  end.

(** Lines 147 to 153: the loop over the arguments and the final
    [process.exit(exitCode)]. *)
Fixpoint main_loop (args : list jsstring) (exitCode : Z) : list console * termination :=
  match args with
  | [] => ([], ExitWith exitCode)
  | arg :: args' =>
      match validate arg with
      | (out, Returned result) =>
          let exitCode' := if (result =? 0)%Z then exitCode else result in
          let '(out', t) := main_loop args' exitCode' in
          (out ++ out', t)
      | (out, Terminated t) => (out, t)
      end
  end.

(** Lines 140 to 153, for the arguments [process.argv.slice(2)]. *)
Definition main (args : list jsstring) : list console * termination :=
  match args with
  | [] =>
      ([Log (js "Usage: node validate.js <file.html>");
        Log (js "       node validate.js examples/*.html")],
       ExitWith 1)
  | _ :: _ => main_loop args 0
  end.

End Program.

(* ================================================================== *)
(** ** A host to compute with

    The functions below fix the implementation-defined parts to what Node
    does on the inputs used in the examples of this file: ASCII documents,
    integer number literals, and timestamps written out in full in the
    ISO format. *)

Module Host.

Definition lowerAscii (c : N) : N :=
  if ((65 <=? c) && (c <=? 90))%N then (c + 32)%N else c.

(** The decimal digits of an integer literal without exponent. *)
Definition printNumber (n : number) : jsstring :=
  (if negative n && negb (isZero n) then js "-" else [])
  ++ of_nat (N.to_nat (mantissa n * 10 ^ Z.to_N (exponent n))).

Definition twoDigits (a b : N) (low high : N) : bool :=
  isDigit a && isDigit b
  && ((low <=? (a - 48) * 10 + (b - 48)) && ((a - 48) * 10 + (b - 48) <=? high))%N.

(** A timestamp of the form [YYYY-MM-DDTHH:mm:ssZ]. *)
Definition isoTimestamp (s : jsstring) : bool :=
  match s with
  | [y1; y2; y3; y4; d1; m1; m2; d2; a1; a2; t; h1; h2; c1; n1; n2; c2; s1; s2; z] =>
      isDigit y1 && isDigit y2 && isDigit y3 && isDigit y4
      && (d1 =? 45)%N && twoDigits m1 m2 1 12 && (d2 =? 45)%N && twoDigits a1 a2 1 28
      && (t =? 84)%N && twoDigits h1 h2 0 23 && (c1 =? 58)%N && twoDigits n1 n2 0 59
      && (c2 =? 58)%N && twoDigits s1 s2 0 59 && (z =? 90)%N
  | _ => false
  end.

Definition describe (e : exn) : jsstring :=
  match e with
  | SyntaxError _ => js "Unexpected token"
  | TypeError (ReadPropertyOfNull key) =>
      js "Cannot read properties of null (reading '" ++ key ++ js "')"
  | TypeError NotAFunction => js "metadata.summary.split is not a function"
  | TypeError NotPrimitive => js "Cannot convert object to primitive value"
  end.

(** The part of a path after its last slash. *)
Fixpoint basename (p : jsstring) : jsstring :=
  match p with
  | [] => []
  | c :: p' => if includes p' (js "/") then basename p' else
               if (c =? 47)%N then p' else p
  end.

Definition node : Runtime := {|
  String_toLowerCase := map lowerAscii;
  Number_toString := printNumber;
  Date_parse_isNaN := fun s => negb (isoTimestamp s);
  TimeClip_isNaN := fun _ => false;
  Error_message := describe;
  path_basename := basename
|}.

End Host.

(* ================================================================== *)
(** ** Views of a run, used to state the properties *)

Section Views.
Context {rt : Runtime}.

(** The two arrays when [validate] reaches line 116. *)
Definition validate_findings (content : jsstring) : findings :=
  fst (validate_checks content no_findings).

(** What the doctype and block-presence checks push on their own. *)
Definition structure_findings (content : jsstring) : findings :=
  fst ((check_doctype content ;; check_blocks content) no_findings).

(** What the metadata checks push on their own. *)
Definition metadata_findings (content : jsstring) : findings :=
  fst (check_metadata content no_findings).

(** What the instructions and human-docs checks push on their own. *)
Definition content_findings (content : jsstring) : findings :=
  fst ((check_instructions content ;; check_human_docs content) no_findings).

(** The value of [metadata[field]] where reading it does not throw. *)
Definition field_value (metadata : json) (field : jsstring) : value :=
  match Get metadata field with
  | Normal v => v
  | Throw _ => None
  end.

(** A value that a template literal can print. *)
Definition printable (v : value) : Prop :=
  exists text, ToString v = Normal text.

End Views.

(** [metadataMatch[1]], or [None] when [metadataMatch] is [null]. *)
Definition metadata_block (content : jsstring) : option jsstring :=
  match1 metadataPattern content.

(** How many entries of [l] are the message [msg]. *)
Definition occurrences (msg : jsstring) (l : list jsstring) : nat :=
  length (filter (JsString.eqb msg) l).




(** The number of maximal runs of white space in a string; [inrun] tells
    whether the character before was white space. *)
Fixpoint count_runs (s : jsstring) (inrun : bool) : nat :=
  match s with
  | [] => 0
  | c :: s' =>
      if isWhiteSpace c then (if inrun then 0 else 1) + count_runs s' true
      else count_runs s' false
  end.

(* ================================================================== *)
(** ** Example documents *)

Module Examples.

(** A text written with an apostrophe wherever the document has a double
    quote. *)
Definition text (s : string) : jsstring :=
  map (fun c => if (c =? 39)%N then 34%N else c) (js s).

(** A complete document around the metadata text [metadata]: doctype, the
    three blocks, instructions of more than 100 characters that mention a
    step, and documentation of more than 200 characters. *)
Definition page (metadata : string) : jsstring :=
  text ("<!DOCTYPE html>
<html><head>
<script type='application/json' id='hc-metadata'>" ++ metadata ++ "</script>
<script type='text/plain' id='hc-instructions'>Step 1: Do X. Then keep going with the remaining parts of the procedure until every item is handled properly.</script>
</head><body><div id='hc-human-docs'><h1>Title</h1><p>0123456789 0123456789 0123456789 0123456789 0123456789 0123456789 0123456789 0123456789 0123456789 0123456789 0123456789 0123456789 0123456789 0123456789 0123456789 0123456789 0123456789 0123456789 0123456789</p></div></body></html>")%string.

(** Metadata with the given type and summary, everything else as in the
    passing scenario of the specification. *)
Definition metadataWith (hc_type summary : string) : string :=
  ("{'hc_version':'1.1','hc_type':" ++ hc_type
   ++ ",'artifact_id':'hc-skill-foo-bar-20240208','version':'1.0.0',"
   ++ "'created':'2024-02-08T00:00:00Z','updated':'2024-02-08T00:00:00Z',"
   ++ "'summary':" ++ summary ++ "}")%string.

Definition tenWords : string := "'one two three four five six seven eight nine ten'".
Definition nineWordsAfterSpace : string := "' one two three four five six seven eight nine'".

Definition passing : jsstring := page (metadataWith "'skill'" tenWords).
Definition widget : jsstring := page (metadataWith "'widget'" tenWords).
Definition emptyType : jsstring := page (metadataWith "''" tenWords).
Definition nineTokensAfterSpace : jsstring := page (metadataWith "'skill'" nineWordsAfterSpace).
Definition nullMetadata : jsstring := page "null".
Definition brokenJson : jsstring := page "{'hc_version': '1.1',".

(** What a metadata text parses to. *)
Definition parsed (metadata : string) : json :=
  match JSON_parse (text metadata) with
  | Some v => v
  | None => JNull
  end.

(** The metadata identifier on an element that is not a script. *)
Definition metadataOnDiv : jsstring :=
  text ("<!DOCTYPE html>
<div id='hc-metadata'>{}</div>
<script id='hc-instructions'>Step 1</script>
<div id='hc-human-docs'></div>")%string.

(** A directory that holds [good.html] and [bad.html] and nothing else. *)
Definition directory : filesystem :=
  fun path =>
    if JsString.eqb path (js "good.html") then inl passing
    else if JsString.eqb path (js "bad.html") then inl widget
    else inr (js "ENOENT: no such file or directory, open '" ++ path ++ js "'").

End Examples.

(* ================================================================== *)
(** ** Notions used in the proofs *)

(** [t] is what is left of [s] after some prefix. *)
Definition suffix (t s : jsstring) : Prop := exists u, s = u ++ t.

(** A matcher only ever moves forward in the input: whatever its
    continuation accepted is a state further to the right. *)
Definition forward (body : mstate -> (mstate -> option mstate) -> option mstate) : Prop :=
  forall s k res, body s k = Some res ->
    exists s', suffix (rest s') (rest s) /\ k s' = Some res.


(** The statement [m] pushes the errors [de] and the warnings [dw], whatever
    the arrays held before, and completes as [c]. *)
Definition pushes {A} (m : M A) (de dw : list jsstring) (c : completion A) : Prop :=
  forall s, m s = (Findings (errors s ++ de) (warnings s ++ dw), c).

(** The statement [m] pushes only errors that satisfy [PE] and warnings that
    satisfy [PW]. *)
Definition emits {A} (PE PW : jsstring -> Prop) (m : M A) : Prop :=
  exists de dw c, pushes m de dw c /\ Forall PE de /\ Forall PW dw.

(** The statement [m] completes normally. *)
Definition total {A} (m : M A) : Prop :=
  forall s, exists s' a, m s = (s', Normal a).

(** The statement [m] pushes the same findings whatever the arrays held. *)
Definition framed {A} (m : M A) : Prop :=
  exists de dw c, pushes m de dw c.

(** The statement [m] completes normally without pushing an error. *)
Definition clean (m : M unit) : Prop :=
  exists dw, pushes m [] dw (Normal tt).

(** Messages other than a missing-block error, a missing-field error, and a
    short-summary warning, told apart by how they begin. *)
Definition otherThanBlock (e : jsstring) : Prop :=
  startsWith e (js "Missing required block: #") = false.

Definition otherThanField (e : jsstring) : Prop :=
  startsWith e (js "Missing required metadata field: ") = false.

Definition otherThanSummary (w : jsstring) : Prop :=
  startsWith w (js "Summary seems short (") = false.

Section Expected.
Context {rt : Runtime}.

(** What line 31 pushes. *)
Definition doctype_errors (content : jsstring) : list jsstring :=
  if startsWith (String_toLowerCase (trim content)) (js "<!doctype html>")
  then [] else [missingDoctype].

(** The blocks whose identifier attribute the document lacks. *)
Definition missing_blocks (content : jsstring) : list jsstring :=
  filter (fun blockId => negb (includes content (idAttribute blockId))) REQUIRED_BLOCKS.

(** The required fields that are absent from the metadata or falsy. *)
Definition missing_fields (metadata : json) : list jsstring :=
  filter (fun field => negb (truthy (field_value metadata field)))
         REQUIRED_METADATA_FIELDS.

End Expected.

(** The checks of the [try] that follow the required-field loop. *)
Definition later_checks {rt : Runtime} (metadata : json) : M unit :=
  check_version metadata ;;
  check_type metadata ;;
  check_artifact_id metadata ;;
  check_timestamps metadata ;;
  check_summary metadata.

Section ExpectedRun.
Context {rt : Runtime}.
Variable fs : filesystem.

(** The lines [validate] prints for one argument. *)
Definition document_report (filePath : jsstring) : list console :=
  fst (validate fs filePath).

(** Whether [validate] returns a non-zero result for the argument. *)
Definition document_failed (filePath : jsstring) : bool :=
  match snd (validate fs filePath) with
  | Returned result => negb (result =? 0)%Z
  | Terminated _ => true
  end.

(** The exit code of a batch all of whose files were read. *)
Definition batch_code (args : list jsstring) : Z :=
  if existsb document_failed args then 1%Z else 0%Z.

End ExpectedRun.

(** *** The language of a pattern *)

(** Where a matcher state stands: its index and the input left. *)
Definition position : Type := (nat * jsstring)%type.

Definition pos (s : mstate) : position := (endIndex s, rest s).

(** [matches r x y]: the pattern [r] can match from [x] to [y]. *)
Inductive matches : regex -> position -> position -> Prop :=
| matches_Empty x : matches Empty x x
| matches_Char (p : N -> bool) i c t :
    p c = true -> matches (Char p) (i, c :: t) (S i, t)
| matches_Seq a b x y z :
    matches a x y -> matches b y z -> matches (Seq a b) x z
| matches_Alt_left a b x y : matches a x y -> matches (Alt a b) x y
| matches_Alt_right a b x y : matches b x y -> matches (Alt a b) x y
| matches_Star_done g r x : matches (Star g r) x x
| matches_Star_round g r x y z :
    matches r x y -> length (snd y) < length (snd x) ->
    matches (Star g r) y z -> matches (Star g r) x z
| matches_Group i r x y : matches r x y -> matches (Group i r) x y
| matches_Bol t : matches Bol (0, t) (0, t)
| matches_Eol i : matches Eol (i, []) (i, []).

(** The continuation [k] accepts every state that stands at [y]. *)
Definition accepts (k : mstate -> option mstate) (y : position) : Prop :=
  forall s, pos s = y -> k s <> None.

(** Whatever the matcher finds is a match. *)
Definition sound (body : mstate -> (mstate -> option mstate) -> option mstate)
  (r : regex) : Prop :=
  forall s k res, body s k = Some res ->
    exists s', matches r (pos s) (pos s') /\ k s' = Some res.

(** *** What the patterns describe *)

(** An identifier of the form [hc-<type>-<slug>-<timestamp>]. *)
Definition conforming (s : jsstring) : Prop :=
  exists type slug stamp,
    s = js "hc-" ++ type ++ js "-" ++ slug ++ js "-" ++ stamp
    /\ In type VALID_TYPES
    /\ slug <> [] /\ forallb lowerDigitDash slug = true
    /\ stamp <> [] /\ forallb decimalDigit stamp = true.

(** A document with an element for the block: the opening tag, attributes
    free of [>] around the identifier attribute, the end of the tag, a body,
    and the closing tag. *)
Definition hasBlock (opening blockId closing s : jsstring) : Prop :=
  exists before attrs attrs' body after,
    s = before ++ opening ++ attrs ++ idAttribute blockId ++ attrs'
        ++ js ">" ++ body ++ closing ++ after
    /\ forallb notGt attrs = true /\ forallb notGt attrs' = true.

(** *** What the field checks push *)

(** The message [w] does not begin with [prefix]. *)
Definition lacks (prefix w : jsstring) : Prop := startsWith w prefix = false.

Section ExpectedFields.
Context {rt : Runtime}.

(** What the version check pushes for the value [v] of [hc_version]. *)
Definition version_warnings (v : value) : list jsstring :=
  if truthy v && strict_ne v (js "1.1") then
    match ToString v with
    | Normal found => [versionWarning found]
    | Throw _ => []
    end
  else [].

(** What the type check pushes for the value [v] of [hc_type]. *)
Definition type_errors (v : value) : list jsstring :=
  if truthy v && negb (Array_includes VALID_TYPES v) then
    match ToString v with
    | Normal found => [invalidType found]
    | Throw _ => []
    end
  else [].

(** What the timestamp check pushes for the value [v] of [tsField]. *)
Definition timestamp_errors (tsField : jsstring) (v : value) : list jsstring :=
  if truthy v then
    match Date_isNaN v, ToString v with
    | Normal true, Normal found => [invalidTimestamp tsField found]
    | _, _ => []
    end
  else [].

(** The body of the loop of lines 73 to 80 for one field. *)
Definition check_timestamp (metadata : json) (tsField : jsstring) : M unit :=
  v <- eval (Get metadata tsField) ;;
  if truthy v then
    v' <- eval (Get metadata tsField) ;;
    nan <- eval (Date_isNaN v') ;;
    if nan : bool then
      v'' <- eval (Get metadata tsField) ;;
      found <- eval (ToString v'') ;;
      push_error (invalidTimestamp tsField found)
    else ret tt
  else ret tt.

End ExpectedFields.

Section Accepted.
Context {rt : Runtime}.

(** Metadata on which the checks of the [try] neither push an error nor
    throw: the seven required fields are truthy, the version can be
    printed, the type is one of the allowed names, the identifier can be
    converted to a string, both timestamps denote a time, and the summary is
    a string. *)
Definition accepted (metadata : json) : Prop :=
  (forall field, In field REQUIRED_METADATA_FIELDS ->
     truthy (field_value metadata field) = true)
  /\ printable (field_value metadata (js "hc_version"))
  /\ Array_includes VALID_TYPES (field_value metadata (js "hc_type")) = true
  /\ printable (field_value metadata (js "artifact_id"))
  /\ Date_isNaN (field_value metadata (js "created")) = Normal false
  /\ Date_isNaN (field_value metadata (js "updated")) = Normal false
  /\ exists summary, field_value metadata (js "summary") = Some (JStr summary).

End Accepted.

(* ================================================================== *)
(** ** More example documents *)

Module FieldExamples.

(** Metadata with the given version, identifier and creation time,
    everything else as in the passing scenario of the specification. *)
Definition metadataOf (hc_version artifact_id created : string) : string :=
  ("{'hc_version':" ++ hc_version ++ ",'hc_type':'skill','artifact_id':"
   ++ artifact_id ++ ",'version':'1.0.0','created':" ++ created
   ++ ",'updated':'2024-02-08T00:00:00Z','summary':" ++ Examples.tenWords
   ++ "}")%string.

Definition goodId : string := "'hc-skill-foo-bar-20240208'".
Definition goodTime : string := "'2024-02-08T00:00:00Z'".

Definition oldVersionMetadata : string := metadataOf "'1.0'" goodId goodTime.
Definition upperCaseIdMetadata : string := metadataOf "'1.1'" "'HC-Skill-Foo-1'" goodTime.
Definition badCreatedMetadata : string := metadataOf "'1.1'" goodId "'not a date'".

Definition oldVersion : jsstring := Examples.page oldVersionMetadata.
Definition upperCaseId : jsstring := Examples.page upperCaseIdMetadata.
Definition badCreated : jsstring := Examples.page badCreatedMetadata.
Definition emptyObject : jsstring := Examples.page "{}".

End FieldExamples.

(* ================================================================== *)
(** ** Facts about strings *)

Section StringFacts.

Lemma eqb_eq (a b : jsstring) : JsString.eqb a b = true <-> a = b.
Proof.
  revert b; induction a as [|x a IH]; intros [|y b]; simpl; split;
    try congruence; try reflexivity.
  - intros H. apply andb_true_iff in H as [Hx Hab].
    apply N.eqb_eq in Hx. apply IH in Hab. congruence.
  - intros H. injection H as -> ->. rewrite N.eqb_refl. now apply IH.
Qed.

Lemma eqb_refl (a : jsstring) : JsString.eqb a a = true.
Proof. now apply eqb_eq. Qed.

Lemma eqb_neq (a b : jsstring) : JsString.eqb a b = false <-> a <> b.
Proof.
  split.
  - intros H E. apply eqb_eq in E. congruence.
  - intros H. destruct (JsString.eqb a b) eqn:E; [|reflexivity].
    apply eqb_eq in E. contradiction.
Qed.

Lemma startsWith_app (p t : jsstring) : startsWith (p ++ t) p = true.
Proof. induction p as [|x p IH]; simpl; [reflexivity|]. now rewrite N.eqb_refl. Qed.

Lemma startsWith_inv (s p : jsstring) :
  startsWith s p = true -> exists t, s = p ++ t.
Proof.
  revert s; induction p as [|x p IH]; intros s H; simpl in *.
  - now exists s.
  - destruct s as [|y s]; [discriminate|].
    apply andb_true_iff in H as [Hx Hp]. apply N.eqb_eq in Hx. subst y.
    destruct (IH _ Hp) as [t ->]. now exists t.
Qed.

Lemma includes_suffix (u t x : jsstring) :
  startsWith t x = true -> includes (u ++ t) x = true.
Proof.
  intros H. induction u as [|c u IH]; simpl.
  - destruct t; simpl; rewrite H; reflexivity.
  - rewrite IH. apply orb_true_r.
Qed.

End StringFacts.

(* ================================================================== *)
(** ** Facts about the matcher *)

Section MatcherFacts.

Lemma suffix_refl (s : jsstring) : suffix s s.
Proof. now exists []. Qed.

Lemma suffix_trans (a b c : jsstring) : suffix a b -> suffix b c -> suffix a c.
Proof. intros [u ->] [v ->]. exists (v ++ u). now rewrite app_assoc. Qed.

Lemma suffix_cons (c : N) (t : jsstring) : suffix t (c :: t).
Proof. now exists [c]. Qed.

Lemma orelse_Some {A} (x y : option A) (a : A) :
  orelse x y = Some a -> x = Some a \/ y = Some a.
Proof. destruct x; simpl; auto. Qed.

Lemma star_loop_forward body greedy :
  forward body -> forall n, forward (fun s k => star_loop body greedy k n s).
Proof.
  intros Hb n. induction n as [|n IH]; intros s k res H; simpl in H.
  - exists s. split; [apply suffix_refl|exact H].
  - assert (Hround :
      body s (fun s' => if length (rest s') <? length (rest s)
                        then star_loop body greedy k n s' else None) = Some res
      -> exists s', suffix (rest s') (rest s) /\ k s' = Some res).
    { intros Hr. apply Hb in Hr as (s1 & Hs1 & Hk1).
      destruct (length (rest s1) <? length (rest s)); [|discriminate].
      apply IH in Hk1 as (s2 & Hs2 & Hk2).
      exists s2. split; [eapply suffix_trans; eassumption|exact Hk2]. }
    destruct greedy; apply orelse_Some in H as [H|H]; auto;
      exists s; (split; [apply suffix_refl|exact H]).
Qed.

Lemma rmatch_forward (r : regex) : forward (rmatch r).
Proof.
  induction r as [|p|a IHa b IHb|a IHa b IHb|g r IH|i r IH| |];
    intros s k res H; simpl in H.
  - exists s. split; [apply suffix_refl|exact H].
  - destruct (rest s) as [|c t] eqn:E; [discriminate|].
    destruct (p c); [|discriminate].
    eexists. split; [|exact H]. simpl. apply suffix_cons.
  - apply IHa in H as (s1 & Hs1 & H). apply IHb in H as (s2 & Hs2 & H).
    exists s2. split; [eapply suffix_trans; eassumption|exact H].
  - apply orelse_Some in H as [H|H]; [apply IHa in H|apply IHb in H]; exact H.
  - exact (star_loop_forward g IH (length (rest s)) s k H).
  - apply IH in H as (s1 & Hs1 & H). eexists. split; [|exact H]. exact Hs1.
  - destruct (endIndex s =? 0); [|discriminate].
    exists s. split; [apply suffix_refl|exact H].
  - destruct (rest s) eqn:E; [|discriminate].
    exists s. split; [rewrite E; apply suffix_refl|exact H].
Qed.

(** A literal matches exactly its own characters. *)
Lemma rmatch_Lit (w : jsstring) s k res :
  rmatch (Lit w) s k = Some res ->
  startsWith (rest s) w = true.
Proof.
  revert s k; induction w as [|c w IH]; intros s k H; simpl in *; [reflexivity|].
  destruct (rest s) as [|d t] eqn:E; [discriminate|].
  destruct (N.eqb c d) eqn:Ec; [|discriminate].
  simpl. apply IH in H. exact H.
Qed.

Lemma execFrom_suffix (r : regex) (t : jsstring) (i : nat) (m : mstate) :
  execFrom r i t = Some m ->
  exists j t', suffix t' t /\ matchAt r j t' = Some m.
Proof.
  revert i; induction t as [|c t IH]; intros i H; simpl in H.
  - destruct (matchAt r i []) eqn:E; [|discriminate].
    injection H as ->. exists i, []. split; [apply suffix_refl|exact E].
  - destruct (matchAt r i (c :: t)) eqn:E.
    + injection H as ->. exists i, (c :: t). split; [apply suffix_refl|exact E].
    + apply IH in H as (j & t' & Hs & Hm). exists j, t'.
      split; [|exact Hm]. eapply suffix_trans; [exact Hs|apply suffix_cons].
Qed.

(** The third term of a sequence, when it is a literal, is matched
    somewhere to the right of where the sequence started. *)
Lemma third_literal (a b c : regex) (w : jsstring) s k res :
  rmatch (Seq a (Seq b (Seq (Lit w) c))) s k = Some res ->
  exists s2, suffix (rest s2) (rest s) /\ startsWith (rest s2) w = true.
Proof.
  cbn [rmatch]. intros H.
  apply rmatch_forward in H as (s1 & Hs1 & H).
  apply rmatch_forward in H as (s2 & Hs2 & H).
  apply rmatch_Lit in H.
  exists s2. split; [eapply suffix_trans; eassumption|exact H].
Qed.

(** A block is only ever extracted from a document that contains the
    block's identifier attribute. *)
Lemma blockPattern_includes (opening blockId closing s : jsstring) :
  match1 (blockPattern opening blockId closing) s <> None ->
  includes s (idAttribute blockId) = true.
Proof.
  unfold match1, exec. intros H.
  destruct (execFrom _ 0 s) as [m|] eqn:E; [clear H|congruence].
  apply execFrom_suffix in E as (j & t & Hs & Hm).
  unfold matchAt, blockPattern in Hm.
  apply third_literal in Hm as (s2 & Hs2 & Hw). simpl in Hs2.
  destruct (suffix_trans Hs2 Hs) as [u ->]. now apply includes_suffix.
Qed.

(** *** The separator of [split] *)

Lemma trimStart_length (t : jsstring) : length (trimStart t) <= length t.
Proof.
  induction t as [|c t IH]; simpl; [lia|].
  destruct (isWhiteSpace c); simpl; lia.
Qed.

Lemma skipn_trimStart (t : jsstring) :
  skipn (length t - length (trimStart t)) t = trimStart t.
Proof.
  induction t as [|c t IH]; [reflexivity|].
  pose proof (trimStart_length t) as Hl.
  cbn [trimStart]. destruct (isWhiteSpace c).
  - replace (length (c :: t) - length (trimStart t))
      with (S (length t - length (trimStart t))) by (cbn [length]; lia).
    cbn [skipn]. exact IH.
  - now rewrite Nat.sub_diag.
Qed.

(** A greedy run of white space takes all the white space there is. *)
Lemma star_spaces (n : nat) : forall (t : jsstring) (i : nat) caps,
  length t <= n ->
  star_loop (rmatch (Char isWhiteSpace)) true Some n (MState i t caps)
  = Some (MState (i + (length t - length (trimStart t))) (trimStart t) caps).
Proof.
  induction n as [|n IH]; intros t i caps Hn.
  - destruct t; [|simpl in Hn; lia]. simpl. now rewrite Nat.add_0_r.
  - cbn [star_loop rmatch rest endIndex captures].
    destruct t as [|c t].
    + simpl. now rewrite Nat.add_0_r.
    + cbn [trimStart]. destruct (isWhiteSpace c).
      * assert (Hlt : (length t <? length (c :: t)) = true)
          by (apply Nat.ltb_lt; simpl; lia).
        rewrite Hlt. rewrite IH by (simpl in Hn; lia).
        pose proof (trimStart_length t). cbn [orelse]. do 2 f_equal. cbn [length]. lia.
      * simpl. now rewrite Nat.sub_diag, Nat.add_0_r.
Qed.

Lemma matchAt_whitespaceRun (q : nat) (t : jsstring) :
  matchAt whitespaceRun q t =
  match t with
  | c :: t' =>
      if isWhiteSpace c
      then Some (MState (q + (length t - length (trimStart t))) (trimStart t) [])
      else None
  | [] => None
  end.
Proof.
  unfold matchAt, whitespaceRun, Plus. cbn [rmatch rest endIndex captures].
  destruct t as [|c t]; [reflexivity|].
  cbn [trimStart]. destruct (isWhiteSpace c); [|reflexivity].
  rewrite star_spaces by reflexivity.
  pose proof (trimStart_length t). cbn [orelse]. do 2 f_equal. cbn [length]. lia.
Qed.

Lemma count_runs_trim (t : jsstring) :
  count_runs t true = count_runs (trimStart t) false.
Proof.
  induction t as [|c t IH]; simpl; [reflexivity|].
  destruct (isWhiteSpace c) eqn:E; simpl; [exact IH|]. now rewrite E.
Qed.

Lemma skipn_cons_inv (s : jsstring) (q : nat) :
  q < length s -> exists c t, skipn q s = c :: t /\ skipn (S q) s = t.
Proof.
  revert q; induction s as [|x s IH]; intros q H; simpl in H; [lia|].
  destruct q as [|q].
  - exists x, s. split; reflexivity.
  - destruct (IH q) as (c & t & H1 & H2); [lia|]. exists c, t. split; assumption.
Qed.

(** [split] yields one piece more than there are runs of white space. *)
Lemma splitLoop_length (s : jsstring) (fuel : nat) : forall p q,
  p <= q -> q <= length s -> length (skipn q s) < fuel ->
  length (splitLoop whitespaceRun s fuel p q) = 1 + count_runs (skipn q s) false.
Proof.
  induction fuel as [|fuel IH]; intros p q Hpq Hq Hf; [lia|].
  cbn [splitLoop]. destruct (q <? length s) eqn:Eq.
  - apply Nat.ltb_lt in Eq.
    destruct (skipn_cons_inv s Eq) as (c & t & Hc & Ht).
    assert (Hlen : length (skipn q s) = length s - q) by apply length_skipn.
    rewrite matchAt_whitespaceRun, Hc. cbn [count_runs].
    destruct (isWhiteSpace c) eqn:Ec.
    + cbn [trimStart]. rewrite Ec. cbn [endIndex].
      pose proof (trimStart_length t) as Hl.
      rewrite Hc in Hlen, Hf. simpl in Hlen, Hf.
      set (k := length (c :: t) - length (trimStart t)).
      assert (Hk : 1 <= k /\ q + k <= length s) by (subst k; cbn [length] in *; lia).
      rewrite Nat.min_l by lia.
      assert (Ep : (q + k =? p) = false) by (apply Nat.eqb_neq; lia).
      rewrite Ep. cbn [length].
      assert (Hskip : skipn (q + k) s = trimStart t).
      { rewrite Nat.add_comm, <- skipn_skipn, Hc.
        subst k. cbn [trimStart]. 
        pose proof (skipn_trimStart (c :: t)) as Hs.
        cbn [trimStart] in Hs. rewrite Ec in Hs. exact Hs. }
      rewrite IH; [|lia|lia|rewrite Hskip; lia].
      rewrite Hskip, count_runs_trim. reflexivity.
    + rewrite IH; [|lia|lia|rewrite Ht; rewrite Hc in Hf; simpl in Hf; lia].
      now rewrite Ht.
  - apply Nat.ltb_ge in Eq. rewrite skipn_all2 by lia. reflexivity.
Qed.

Lemma split_length (s : jsstring) :
  s <> [] -> length (split whitespaceRun s) = 1 + count_runs s false.
Proof.
  intros H. destruct s as [|c s]; [contradiction|].
  unfold split. rewrite splitLoop_length; [reflexivity|lia|lia|].
  simpl. lia.
Qed.

(** *** Tokens and runs of white space *)





End MatcherFacts.

(* ================================================================== *)
(** ** Facts about the JSON parser *)

Section JsonFacts.

Lemma skip_ws_length (s : jsstring) : length (skip_ws s) <= length s.
Proof.
  induction s as [|c s IH]; simpl; [lia|].
  destruct (isJsonSpace c); simpl; lia.
Qed.

Lemma skip_ws_cons (s : jsstring) (c : N) (t : jsstring) :
  skip_ws s = c :: t -> length t < length s.
Proof.
  intros H. pose proof (skip_ws_length s) as Hl. rewrite H in Hl. simpl in Hl. lia.
Qed.

Lemma parse_chars_bounded (n : nat) : forall s w r,
  length s <= n -> parse_chars s = Some (w, r) -> length r < length s.
Proof.
  induction n as [|n IH]; intros s w r Hn H;
    (destruct s as [|c t]; [discriminate|]); simpl in Hn; [lia|].
  simpl in H. destruct (c =? 34)%N.
  { injection H as <- <-. simpl. lia. }
  assert (Hcons : forall x (u : jsstring), length u <= n ->
            consChar x (parse_chars u) = Some (w, r) -> length r < length u).
  { intros x u Hu E. unfold consChar in E.
    destruct (parse_chars u) as [[w' r']|] eqn:Eu; [|discriminate].
    injection E as <- <-. now apply IH in Eu. }
  destruct (c =? 92)%N.
  - destruct t as [|e t']; [discriminate|].
    destruct (simple_escape e).
    + apply Hcons in H; simpl in *; lia.
    + destruct (e =? 117)%N; [|discriminate].
      destruct t' as [|h1 [|h2 [|h3 [|h4 t'']]]]; try discriminate.
      destruct (hex4 h1 h2 h3 h4); [|discriminate].
      apply Hcons in H; simpl in *; lia.
  - destruct (c <? 32)%N; [discriminate|].
    apply Hcons in H; simpl in *; lia.
Qed.

Lemma parse_chars_length (s w r : jsstring) :
  parse_chars s = Some (w, r) -> length r < length s.
Proof. intros H. eapply parse_chars_bounded; [apply le_n|exact H]. Qed.

Lemma span_digits_length (s : jsstring) : forall acc count m n r,
  span_digits s acc count = (m, n, r) ->
  length r + n = length s + count /\ count <= n.
Proof.
  induction s as [|c t IH]; intros acc count m n r H; simpl in H.
  - injection H as <- <- <-. simpl. lia.
  - destruct (isDigit c).
    + apply IH in H. simpl. lia.
    + injection H as <- <- <-. simpl. lia.
Qed.

Lemma parse_int_length (s : jsstring) m r :
  parse_int s = Some (m, r) -> length r < length s.
Proof.
  destruct s as [|c t]; [discriminate|]. unfold parse_int.
  destruct (c =? 48)%N.
  { intros H. injection H as <- <-. simpl. lia. }
  destruct (isDigit c) eqn:Ed; [|discriminate].
  destruct (span_digits (c :: t) 0 0) as [[m' n'] r'] eqn:E.
  intros H. injection H as <- <-.
  simpl in E. rewrite Ed in E. apply span_digits_length in E. simpl. lia.
Qed.

Lemma parse_frac_length (m : N) (s : jsstring) m' n r :
  parse_frac m s = Some (m', n, r) -> length r <= length s.
Proof.
  destruct s as [|c t]; simpl.
  { intros H. injection H as <- <- <-. simpl. lia. }
  destruct (c =? 46)%N.
  - destruct (span_digits t m 0) as [[m1 n1] r1] eqn:E.
    destruct n1; [discriminate|]. intros H. injection H as <- <- <-.
    apply span_digits_length in E. simpl. lia.
  - intros H. injection H as <- <- <-. simpl. lia.
Qed.

Lemma parse_exp_digits_length (neg : bool) (s : jsstring) e r :
  parse_exp_digits neg s = Some (e, r) -> length r <= length s.
Proof.
  unfold parse_exp_digits.
  destruct (span_digits s 0 0) as [[m1 n1] r1] eqn:E.
  destruct n1; [discriminate|]. intros H. injection H as <- <-.
  apply span_digits_length in E. lia.
Qed.

Lemma parse_exp_length (s : jsstring) e r :
  parse_exp s = Some (e, r) -> length r <= length s.
Proof.
  destruct s as [|c t]; simpl.
  { intros H. injection H as <- <-. simpl. lia. }
  destruct ((c =? 101) || (c =? 69))%N.
  - destruct t as [|sg t']; [discriminate|].
    destruct (sg =? 43)%N; [|destruct (sg =? 45)%N];
      intros H; apply parse_exp_digits_length in H; simpl in *; lia.
  - intros H. injection H as <- <-. simpl. lia.
Qed.

Lemma parse_unsigned_length (neg : bool) (s : jsstring) n r :
  parse_unsigned neg s = Some (n, r) -> length r < length s.
Proof.
  unfold parse_unsigned.
  destruct (parse_int s) as [[m r1]|] eqn:E1; [|discriminate].
  destruct (parse_frac m r1) as [[[m' fd] r2]|] eqn:E2; [|discriminate].
  destruct (parse_exp r2) as [[e r3]|] eqn:E3; [|discriminate].
  intros H. injection H as <- <-.
  apply parse_int_length in E1. apply parse_frac_length in E2.
  apply parse_exp_length in E3. lia.
Qed.

Lemma parse_number_length (s : jsstring) n r :
  parse_number s = Some (n, r) -> length r < length s.
Proof.
  destruct s as [|c t]; [discriminate|]. unfold parse_number.
  destruct (c =? 45)%N; intros H; apply parse_unsigned_length in H; simpl in *; lia.
Qed.

Lemma keyword_length (w : jsstring) (v : json) (s : jsstring) v' r :
  w <> [] -> keyword w v s = Parsed v' r -> length r < length s.
Proof.
  intros Hw. unfold keyword. destruct (startsWith s w) eqn:E; [|discriminate].
  intros H. injection H as <- <-.
  apply startsWith_inv in E as [t ->].
  rewrite length_skipn, length_app. destruct w; [contradiction|simpl; lia].
Qed.


(** Every successful parse consumes input. *)
Lemma parse_consumes (n : nat) :
  (forall s v r, parse_value n s = Parsed v r -> length r < length s)
  /\ (forall s acc v r, parse_elements n s acc = Parsed v r -> length r < length s)
  /\ (forall s acc v r, parse_members n s acc = Parsed v r -> length r < length s).
Proof.
  induction n as [|n (IHv & IHe & IHm)]; [repeat split; discriminate|].
  repeat split.
  - intros s v r H. cbn [parse_value] in H.
    destruct (skip_ws s) as [|c t] eqn:Es; [discriminate|].
    apply skip_ws_cons in Es.
    destruct (c =? 123)%N.
    { destruct (skip_ws t) as [|c' t'] eqn:Et; [discriminate|].
      apply skip_ws_cons in Et.
      destruct (c' =? 125)%N; [injection H as <- <-; lia|].
      apply IHm in H. lia. }
    destruct (c =? 91)%N.
    { destruct (skip_ws t) as [|c' t'] eqn:Et; [discriminate|].
      apply skip_ws_cons in Et.
      destruct (c' =? 93)%N; [injection H as <- <-; lia|].
      apply IHe in H. lia. }
    destruct (c =? 34)%N.
    { destruct (parse_chars t) as [[w r']|] eqn:Ec; [|discriminate].
      injection H as <- <-. apply parse_chars_length in Ec. lia. }
    destruct (c =? 116)%N;
      [apply keyword_length in H; [simpl in H; lia|discriminate]|].
    destruct (c =? 102)%N;
      [apply keyword_length in H; [simpl in H; lia|discriminate]|].
    destruct (c =? 110)%N;
      [apply keyword_length in H; [simpl in H; lia|discriminate]|].
    destruct (parse_number (c :: t)) as [[m r']|] eqn:En; [|discriminate].
    injection H as <- <-. apply parse_number_length in En. simpl in En. lia.
  - intros s acc v r H. cbn [parse_elements] in H.
    destruct (parse_value n s) as [v' r'| |] eqn:Ev; try discriminate.
    apply IHv in Ev.
    destruct (skip_ws r') as [|c t] eqn:Es; [discriminate|].
    apply skip_ws_cons in Es.
    destruct (c =? 44)%N; [apply IHe in H; lia|].
    destruct (c =? 93)%N; [|discriminate].
    injection H as <- <-. lia.
  - intros s acc v r H. cbn [parse_members] in H.
    destruct (skip_ws s) as [|q t] eqn:Es; [discriminate|].
    apply skip_ws_cons in Es.
    destruct (q =? 34)%N; [|discriminate].
    destruct (parse_chars t) as [[k r1]|] eqn:Ec; [|discriminate].
    apply parse_chars_length in Ec.
    destruct (skip_ws r1) as [|c t'] eqn:Es1; [discriminate|].
    apply skip_ws_cons in Es1.
    destruct (c =? 58)%N; [|discriminate].
    destruct (parse_value n t') as [v' r'| |] eqn:Ev; try discriminate.
    apply IHv in Ev.
    destruct (skip_ws r') as [|d t''] eqn:Es2; [discriminate|].
    apply skip_ws_cons in Es2.
    destruct (d =? 44)%N; [apply IHm in H; lia|].
    destruct (d =? 125)%N; [|discriminate].
    injection H as <- <-. lia.
Qed.

(** The recursion budget is never what stops the parser. *)
Lemma parse_fuel (n : nat) :
  (forall s, 2 * length s + 2 <= n -> parse_value n s <> Fuel)
  /\ (forall s acc, 2 * length s + 3 <= n -> parse_elements n s acc <> Fuel)
  /\ (forall s acc, 2 * length s + 3 <= n -> parse_members n s acc <> Fuel).
Proof.
  induction n as [|n (IHv & IHe & IHm)]; [repeat split; intros; lia|].
  repeat split.
  - intros s Hn H. cbn [parse_value] in H.
    destruct (skip_ws s) as [|c t] eqn:Es; [discriminate|].
    apply skip_ws_cons in Es.
    destruct (c =? 123)%N.
    { destruct (skip_ws t) as [|c' t'] eqn:Et; [discriminate|].
      destruct (c' =? 125)%N; [discriminate|].
      apply IHm in H; [exact H|lia]. }
    destruct (c =? 91)%N.
    { destruct (skip_ws t) as [|c' t'] eqn:Et; [discriminate|].
      destruct (c' =? 93)%N; [discriminate|].
      apply IHe in H; [exact H|lia]. }
    destruct (c =? 34)%N; [destruct (parse_chars t) as [[w r']|]; discriminate|].
    unfold keyword in H.
    destruct (c =? 116)%N; [destruct (startsWith _ _); discriminate|].
    destruct (c =? 102)%N; [destruct (startsWith _ _); discriminate|].
    destruct (c =? 110)%N; [destruct (startsWith _ _); discriminate|].
    destruct (parse_number (c :: t)) as [[m r']|]; discriminate.
  - intros s acc Hn H. cbn [parse_elements] in H.
    destruct (parse_value n s) as [v' r'| |] eqn:Ev; try discriminate.
    + apply (proj1 (parse_consumes n)) in Ev.
      destruct (skip_ws r') as [|c t] eqn:Es; [discriminate|].
      apply skip_ws_cons in Es.
      destruct (c =? 44)%N; [apply IHe in H; [exact H|lia]|].
      destruct (c =? 93)%N; discriminate.
    + apply IHv in Ev; [exact Ev|lia].
  - intros s acc Hn H. cbn [parse_members] in H.
    destruct (skip_ws s) as [|q t] eqn:Es; [discriminate|].
    apply skip_ws_cons in Es.
    destruct (q =? 34)%N; [|discriminate].
    destruct (parse_chars t) as [[k r1]|] eqn:Ec; [|discriminate].
    apply parse_chars_length in Ec.
    destruct (skip_ws r1) as [|c t'] eqn:Es1; [discriminate|].
    apply skip_ws_cons in Es1.
    destruct (c =? 58)%N; [|discriminate].
    destruct (parse_value n t') as [v' r'| |] eqn:Ev; try discriminate.
    + apply (proj1 (parse_consumes n)) in Ev.
      destruct (skip_ws r') as [|d t''] eqn:Es2; [discriminate|].
      apply skip_ws_cons in Es2.
      destruct (d =? 44)%N; [apply IHm in H; [exact H|lia]|].
      destruct (d =? 125)%N; discriminate.
    + apply IHv in Ev; [exact Ev|lia].
Qed.

(** [JSON_parse] answers [None] only for text that is not JSON. *)
Lemma parse_value_fuel (s : jsstring) : parse_value (budget s) s <> Fuel.
Proof. apply (proj1 (parse_fuel (budget s))). unfold budget. lia. Qed.

End JsonFacts.


(* ================================================================== *)
(** ** Facts about statements *)

Section StatementFacts.
Context {A B : Type}.

Lemma pushes_run (m : M A) de dw c :
  pushes m de dw c -> m no_findings = (Findings de dw, c).
Proof. intros H. now rewrite H. Qed.

Lemma pushes_ret (a : A) : pushes (ret a) [] [] (Normal a).
Proof. intros [es ws]. unfold ret. simpl. now rewrite !app_nil_r. Qed.

Lemma pushes_eval (c : completion A) : pushes (eval c) [] [] c.
Proof. intros [es ws]. unfold eval. simpl. now rewrite !app_nil_r. Qed.

Lemma pushes_throw (e : exn) : pushes (@throw A e) [] [] (Throw e).
Proof. intros [es ws]. unfold throw. simpl. now rewrite !app_nil_r. Qed.

Lemma pushes_bind (m : M A) (f : A -> M B) de dw a de' dw' c :
  pushes m de dw (Normal a) -> pushes (f a) de' dw' c ->
  pushes (bind m f) (de ++ de') (dw ++ dw') c.
Proof.
  intros Hm Hf s. unfold bind. rewrite Hm, Hf. simpl. now rewrite !app_assoc.
Qed.

Lemma pushes_bind_throw (m : M A) (f : A -> M B) de dw e :
  pushes m de dw (Throw e) -> pushes (bind m f) de dw (Throw e).
Proof. intros Hm s. unfold bind. now rewrite Hm. Qed.

Lemma pushes_try_normal (m : M A) (h : exn -> M A) de dw a :
  pushes m de dw (Normal a) -> pushes (try_catch m h) de dw (Normal a).
Proof. intros Hm s. unfold try_catch. now rewrite Hm. Qed.

Lemma pushes_try_throw (m : M A) (h : exn -> M A) de dw e de' dw' c :
  pushes m de dw (Throw e) -> pushes (h e) de' dw' c ->
  pushes (try_catch m h) (de ++ de') (dw ++ dw') c.
Proof.
  intros Hm Hh s. unfold try_catch. rewrite Hm, Hh. simpl. now rewrite !app_assoc.
Qed.

Lemma emits_ret PE PW (a : A) : emits PE PW (ret a).
Proof. exists [], [], (Normal a). split; [apply pushes_ret|split; constructor]. Qed.

Lemma emits_eval PE PW (c : completion A) : emits PE PW (eval c).
Proof. exists [], [], c. split; [apply pushes_eval|split; constructor]. Qed.

Lemma emits_throw PE PW (e : exn) : emits PE PW (@throw A e).
Proof. exists [], [], (Throw e). split; [apply pushes_throw|split; constructor]. Qed.

Lemma emits_bind PE PW (m : M A) (f : A -> M B) :
  emits PE PW m -> (forall a, emits PE PW (f a)) -> emits PE PW (bind m f).
Proof.
  intros (de & dw & c & Hm & He & Hw) Hf. destruct c as [a|e].
  - destruct (Hf a) as (de' & dw' & c' & Hfa & He' & Hw').
    exists (de ++ de'), (dw ++ dw'), c'.
    split; [eapply pushes_bind; eassumption|].
    split; apply Forall_app; split; assumption.
  - exists de, dw, (Throw e). split; [now apply pushes_bind_throw|now split].
Qed.

Lemma emits_try PE PW (m : M A) (h : exn -> M A) :
  emits PE PW m -> (forall e, emits PE PW (h e)) -> emits PE PW (try_catch m h).
Proof.
  intros (de & dw & c & Hm & He & Hw) Hh. destruct c as [a|e].
  - exists de, dw, (Normal a). split; [now apply pushes_try_normal|now split].
  - destruct (Hh e) as (de' & dw' & c' & Hhe & He' & Hw').
    exists (de ++ de'), (dw ++ dw'), c'.
    split; [eapply pushes_try_throw; eassumption|].
    split; apply Forall_app; split; assumption.
Qed.

Lemma total_ret (a : A) : total (ret a).
Proof. intros s. now exists s, a. Qed.

Lemma total_eval_normal (a : A) : total (eval (Normal a)).
Proof. intros s. now exists s, a. Qed.

Lemma total_bind (m : M A) (f : A -> M B) :
  total m -> (forall a, total (f a)) -> total (bind m f).
Proof.
  intros Hm Hf s. unfold bind. destruct (Hm s) as (s' & a & ->). apply Hf.
Qed.

Lemma total_try (m : M A) (h : exn -> M A) :
  (forall e, total (h e)) -> total (try_catch m h).
Proof.
  intros Hh s. unfold try_catch. destruct (m s) as [s' [a|e]].
  - now exists s', a.
  - apply Hh.
Qed.

(** A statement that completes normally and whose pushes are classified. *)
Lemma emits_total PE PW (m : M A) :
  emits PE PW m -> total m ->
  exists de dw a, pushes m de dw (Normal a) /\ Forall PE de /\ Forall PW dw.
Proof.
  intros (de & dw & c & Hm & He & Hw) Ht.
  destruct (Ht no_findings) as (s' & a & Hs). rewrite Hm in Hs.
  injection Hs as _ ->. now exists de, dw, a.
Qed.

End StatementFacts.

Section UnitStatementFacts.

Lemma pushes_push_error (msg : jsstring) : pushes (push_error msg) [msg] [] (Normal tt).
Proof. intros [es ws]. unfold push_error. simpl. now rewrite app_nil_r. Qed.

Lemma pushes_push_warning (msg : jsstring) : pushes (push_warning msg) [] [msg] (Normal tt).
Proof. intros [es ws]. unfold push_warning. simpl. now rewrite app_nil_r. Qed.

Lemma emits_push_error (PE PW : jsstring -> Prop) msg :
  PE msg -> emits PE PW (push_error msg).
Proof.
  intros H. exists [msg], [], (Normal tt).
  split; [apply pushes_push_error|split; repeat constructor; exact H].
Qed.

Lemma emits_push_warning (PE PW : jsstring -> Prop) msg :
  PW msg -> emits PE PW (push_warning msg).
Proof.
  intros H. exists [], [msg], (Normal tt).
  split; [apply pushes_push_warning|split; repeat constructor; exact H].
Qed.

Lemma emits_when PE PW (b : bool) (m : M unit) :
  emits PE PW m -> emits PE PW (when b m).
Proof. intros H. destruct b; [exact H|apply emits_ret]. Qed.

Lemma emits_for_of {A} PE PW (l : list A) (body : A -> M unit) :
  (forall x, emits PE PW (body x)) -> emits PE PW (for_of l body).
Proof.
  intros H. induction l as [|x l IH]; simpl; [apply emits_ret|].
  apply emits_bind; [apply H|intros _; exact IH].
Qed.

Lemma total_push_error msg : total (push_error msg).
Proof. intros s. now eexists _, tt. Qed.

Lemma total_push_warning msg : total (push_warning msg).
Proof. intros s. now eexists _, tt. Qed.

Lemma total_when (b : bool) (m : M unit) : total m -> total (when b m).
Proof. intros H. destruct b; [exact H|apply total_ret]. Qed.

Lemma total_for_of {A} (l : list A) (body : A -> M unit) :
  (forall x, total (body x)) -> total (for_of l body).
Proof.
  intros H. induction l as [|x l IH]; simpl; [apply total_ret|].
  apply total_bind; [apply H|intros _; exact IH].
Qed.

(** Two statements in a row push what each pushes, in order. *)
Lemma pushes_seq (m1 m2 : M unit) d1 w1 d2 w2 c :
  pushes m1 d1 w1 (Normal tt) -> pushes m2 d2 w2 c ->
  pushes (m1 ;; m2) (d1 ++ d2) (w1 ++ w2) c.
Proof. intros H1 H2. eapply pushes_bind; eassumption. Qed.

End UnitStatementFacts.

(** Classifies what a statement built from the combinators pushes, leaving
    one goal for each message. *)
Ltac classify :=
  repeat first
    [ apply emits_ret
    | apply emits_eval
    | apply emits_throw
    | apply emits_bind; [|intros ?]
    | apply emits_try; [|intros ?]
    | apply emits_when
    | apply emits_for_of; intros ?
    | apply emits_push_error
    | apply emits_push_warning
    | match goal with
      | |- emits _ _ (if ?b then _ else _) => destruct b
      | |- emits _ _ (match ?x with _ => _ end) => destruct x
      end ].

(** Shows that a statement built from the combinators completes normally. *)
Ltac terminates :=
  repeat first
    [ apply total_ret
    | apply total_eval_normal
    | apply total_push_error
    | apply total_push_warning
    | apply total_try; intros ?
    | apply total_bind; [|intros ?]
    | apply total_when
    | apply total_for_of; intros ?
    | match goal with
      | |- total (if ?b then _ else _) => destruct b
      | |- total (match ?x with _ => _ end) => destruct x
      end ].

(* ================================================================== *)
(** ** Facts about the checks *)

Section CheckFacts.
Context {rt : Runtime}.

Lemma pushes_unique {A} (m : M A) de dw c de' dw' c' :
  pushes m de dw c -> pushes m de' dw' c' -> de = de' /\ dw = dw' /\ c = c'.
Proof.
  intros H H'. apply pushes_run in H, H'. rewrite H in H'.
  injection H' as -> -> ->. auto.
Qed.

Lemma framed_of_emits {A} PE PW (m : M A) : emits PE PW m -> framed m.
Proof. intros (de & dw & c & H & _). now exists de, dw, c. Qed.

Lemma clean_seq_inv (m1 m2 : M unit) :
  framed m1 -> framed m2 -> clean (m1 ;; m2) -> clean m1 /\ clean m2.
Proof.
  intros (d1 & w1 & c1 & H1) (d2 & w2 & c2 & H2) [w H].
  destruct c1 as [[]|e].
  - destruct (pushes_unique (pushes_seq H1 H2) H) as (Hd & _ & Hc).
    apply app_eq_nil in Hd as [-> ->]. subst c2.
    split; [now exists w1|now exists w2].
  - destruct (pushes_unique (pushes_bind_throw _ H1) H) as (_ & _ & Hc).
    discriminate.
Qed.

(** *** The checks outside the [try] *)

Lemma check_doctype_pushes (content : jsstring) :
  pushes (check_doctype content) (doctype_errors content) [] (Normal tt).
Proof.
  unfold check_doctype, doctype_errors.
  destruct (startsWith _ _); simpl; [apply pushes_ret|apply pushes_push_error].
Qed.

Lemma for_of_missing {A} (absent : A -> bool) (message : A -> jsstring) (l : list A) :
  pushes (for_of l (fun x => when (absent x) (push_error (message x))))
         (map message (filter absent l)) [] (Normal tt).
Proof.
  induction l as [|x l IH]; simpl; [apply pushes_ret|].
  destruct (absent x); simpl.
  - exact (pushes_seq (pushes_push_error (message x)) IH).
  - exact (pushes_seq (pushes_ret tt) IH).
Qed.

Lemma check_blocks_pushes (content : jsstring) :
  pushes (check_blocks content) (map missingBlock (missing_blocks content)) []
         (Normal tt).
Proof. apply for_of_missing. Qed.

Lemma structure_pushes (content : jsstring) :
  pushes (check_doctype content ;; check_blocks content)
         (doctype_errors content ++ map missingBlock (missing_blocks content))
         [] (Normal tt).
Proof.
  exact (pushes_seq (check_doctype_pushes content) (check_blocks_pushes content)).
Qed.

Lemma content_emits PW (content : jsstring) :
  PW shortInstructions -> PW noSteps -> PW shortHumanDocs ->
  emits (fun _ => False) PW (check_instructions content ;; check_human_docs content).
Proof.
  intros H1 H2 H3. unfold check_instructions, check_human_docs.
  classify; assumption.
Qed.

Lemma content_total (content : jsstring) :
  total (check_instructions content ;; check_human_docs content).
Proof. unfold check_instructions, check_human_docs. terminates. Qed.

Lemma content_pushes PW (content : jsstring) :
  PW shortInstructions -> PW noSteps -> PW shortHumanDocs ->
  exists dw, pushes (check_instructions content ;; check_human_docs content)
                    [] dw (Normal tt) /\ Forall PW dw.
Proof.
  intros H1 H2 H3.
  destruct (emits_total (content_emits PW content H1 H2 H3) (content_total content))
    as (de & dw & [] & Hp & He & Hw).
  destruct de as [|e de]; [|inversion He; contradiction].
  now exists dw.
Qed.

(** *** The metadata checks *)

Lemma metadata_checks_emits (PE PW : jsstring -> Prop) (text : jsstring) :
  (forall field, PE (missingField field)) ->
  (forall found, PE (invalidType found)) ->
  (forall tsField found, PE (invalidTimestamp tsField found)) ->
  (forall found, PW (versionWarning found)) ->
  PW idFormatWarning ->
  (forall n, PW (shortSummary n)) ->
  emits PE PW (metadata_checks text).
Proof.
  intros. unfold metadata_checks, parse_metadata, check_required_fields,
    check_version, check_type, check_artifact_id, check_timestamps, check_summary.
  classify; auto.
Qed.

Lemma check_metadata_emits (PE PW : jsstring -> Prop) (content : jsstring) :
  (forall field, PE (missingField field)) ->
  (forall found, PE (invalidType found)) ->
  (forall tsField found, PE (invalidTimestamp tsField found)) ->
  (forall message, PE (invalidJson message)) ->
  (forall found, PW (versionWarning found)) ->
  PW idFormatWarning ->
  (forall n, PW (shortSummary n)) ->
  emits PE PW (check_metadata content).
Proof.
  intros. unfold check_metadata. destruct (match1 _ _); [|apply emits_ret].
  apply emits_try; [now apply metadata_checks_emits|].
  intros e. apply emits_push_error. auto.
Qed.

Lemma check_metadata_total (content : jsstring) : total (check_metadata content).
Proof. unfold check_metadata. terminates. Qed.

Lemma check_metadata_pushes (PE PW : jsstring -> Prop) (content : jsstring) :
  (forall field, PE (missingField field)) ->
  (forall found, PE (invalidType found)) ->
  (forall tsField found, PE (invalidTimestamp tsField found)) ->
  (forall message, PE (invalidJson message)) ->
  (forall found, PW (versionWarning found)) ->
  PW idFormatWarning ->
  (forall n, PW (shortSummary n)) ->
  exists de dw, pushes (check_metadata content) de dw (Normal tt)
                /\ Forall PE de /\ Forall PW dw.
Proof.
  intros.
  destruct (emits_total (PE:=PE) (PW:=PW) (m:=check_metadata content))
    as (de & dw & [] & Hp & He & Hw);
    [now apply check_metadata_emits|apply check_metadata_total|].
  now exists de, dw.
Qed.

(** *** The whole of the checks *)

Lemma validate_checks_total (content : jsstring) : total (validate_checks content).
Proof.
  unfold validate_checks. apply total_bind; [|intros _].
  { unfold check_doctype. terminates. }
  apply total_bind; [|intros _].
  { unfold check_blocks. terminates. }
  apply total_bind; [apply check_metadata_total|intros _].
  apply content_total.
Qed.

(** The three stages push one after the other, and none sees what the
    others pushed. *)
Lemma validate_checks_pushes (content : jsstring) dm wm wc :
  pushes (check_metadata content) dm wm (Normal tt) ->
  pushes (check_instructions content ;; check_human_docs content) [] wc (Normal tt) ->
  pushes (validate_checks content)
         (doctype_errors content ++ map missingBlock (missing_blocks content) ++ dm)
         (wm ++ wc) (Normal tt).
Proof.
  intros Hm Hc. unfold validate_checks.
  pose proof (pushes_seq (check_doctype_pushes content)
               (pushes_seq (check_blocks_pushes content) (pushes_seq Hm Hc))) as H.
  simpl in H. rewrite app_nil_r in H. exact H.
Qed.

Lemma validate_findings_stages (content : jsstring) :
  validate_findings content =
  Findings (errors (structure_findings content) ++ errors (metadata_findings content))
           (warnings (metadata_findings content) ++ warnings (content_findings content)).
Proof.
  destruct (check_metadata_pushes (fun _ => True) (fun _ => True) content)
    as (dm & wm & Hm & _); auto.
  destruct (content_pushes (fun _ => True) content) as (wc & Hc & _); auto.
  unfold validate_findings, structure_findings, metadata_findings, content_findings.
  rewrite (pushes_run (validate_checks_pushes content Hm Hc)).
  rewrite (pushes_run (structure_pushes content)).
  rewrite (pushes_run Hm), (pushes_run Hc). simpl.
  now rewrite app_assoc.
Qed.

End CheckFacts.

(* ================================================================== *)
(** ** Telling messages apart *)

Section MessageFacts.

Lemma occurrences_app msg (l1 l2 : list jsstring) :
  occurrences msg (l1 ++ l2) = occurrences msg l1 + occurrences msg l2.
Proof. unfold occurrences. now rewrite filter_app, length_app. Qed.

Lemma occurrences_none (P : jsstring -> Prop) msg (l : list jsstring) :
  ~ P msg -> Forall P l -> occurrences msg l = 0.
Proof.
  intros Hn H. induction H as [|x l Hx _ IH]; [reflexivity|].
  unfold occurrences in *. simpl.
  destruct (JsString.eqb msg x) eqn:E; [|exact IH].
  apply eqb_eq in E. subst x. contradiction.
Qed.

Lemma missingBlock_not_other blockId : ~ otherThanBlock (missingBlock blockId).
Proof.
  unfold otherThanBlock, missingBlock. now rewrite startsWith_app.
Qed.

Lemma missingField_not_other field : ~ otherThanField (missingField field).
Proof.
  unfold otherThanField, missingField. now rewrite startsWith_app.
Qed.

Lemma shortSummary_not_other n : ~ otherThanSummary (shortSummary n).
Proof.
  unfold otherThanSummary, shortSummary. now rewrite startsWith_app.
Qed.

Lemma missingField_inj (f g : jsstring) : missingField f = missingField g -> f = g.
Proof. unfold missingField. apply app_inv_head. Qed.

End MessageFacts.

(* ================================================================== *)
(** ** Properties of a single run *)

Section RunFacts.
Context {rt : Runtime}.

Lemma validate_checks_normal (content : jsstring) :
  validate_checks content no_findings = (validate_findings content, Normal tt).
Proof.
  unfold validate_findings.
  destruct (validate_checks_total content no_findings) as (f & [] & ->).
  reflexivity.
Qed.

(** A file that can be read is reported on, and [validate] returns. *)
Lemma validate_readable (fs : filesystem) (filePath content : jsstring) :
  fs filePath = inl content ->
  validate fs filePath =
  (fst (report (path_basename filePath) (validate_findings content)),
   Returned (snd (report (path_basename filePath) (validate_findings content)))).
Proof.
  intros H. unfold validate. rewrite H, validate_checks_normal.
  now destruct (report _ _).
Qed.

Lemma report_result (name : jsstring) (f : findings) :
  snd (report name f) = match errors f with [] => 0%Z | _ :: _ => 1%Z end.
Proof.
  unfold report. destruct (errors f), (warnings f); reflexivity.
Qed.


(** C2: the result of validating a document is 1 (failed) exactly when the
    error array is not empty, and 0 (passed) exactly when it is empty,
    whatever the warnings. *)
Theorem verdict_failed_iff_errors (fs : filesystem) (filePath content : jsstring) :
  fs filePath = inl content ->
  exists out result,
    validate fs filePath = (out, Returned result)
    /\ (result = 1%Z <-> errors (validate_findings content) <> [])
    /\ (result = 0%Z <-> errors (validate_findings content) = []).
Proof.
  intros H. do 2 eexists. split; [apply (validate_readable fs filePath H)|].
  rewrite report_result.
  destruct (errors (validate_findings content)); split; split;
    congruence || discriminate || reflexivity.
Qed.


(** The errors of a run: those of the doctype check, one for each missing
    block, then those of the metadata checks. *)
Lemma validate_errors (content : jsstring) :
  errors (validate_findings content)
  = doctype_errors content ++ map missingBlock (missing_blocks content)
    ++ errors (metadata_findings content).
Proof.
  rewrite validate_findings_stages. unfold structure_findings.
  rewrite (pushes_run (structure_pushes content)). simpl.
  now rewrite app_assoc.
Qed.

Lemma doctype_errors_other (P : jsstring -> Prop) (content : jsstring) :
  P missingDoctype -> Forall P (doctype_errors content).
Proof.
  intros H. unfold doctype_errors. destruct (startsWith _ _); repeat constructor.
  exact H.
Qed.

Lemma metadata_errors_other (P : jsstring -> Prop) (content : jsstring) :
  (forall field, P (missingField field)) ->
  (forall found, P (invalidType found)) ->
  (forall tsField found, P (invalidTimestamp tsField found)) ->
  (forall message, P (invalidJson message)) ->
  Forall P (errors (metadata_findings content)).
Proof.
  intros H1 H2 H3 H4.
  destruct (check_metadata_pushes P (fun _ => True) content)
    as (de & dw & Hp & He & _); auto.
  unfold metadata_findings. now rewrite (pushes_run Hp).
Qed.

(** The missing-block errors of a run are those of the blocks whose
    identifier attribute the document lacks. *)
Lemma missingBlock_In (content blockId : jsstring) :
  In (missingBlock blockId) (errors (validate_findings content))
  <-> In blockId (missing_blocks content).
Proof.
  rewrite validate_errors.
  assert (Hout : forall l, Forall otherThanBlock l -> ~ In (missingBlock blockId) l).
  { intros l Hf Hi. rewrite Forall_forall in Hf.
    exact (missingBlock_not_other (Hf _ Hi)). }
  split.
  - intros H. apply in_app_or in H as [H|H].
    { now apply Hout in H; [|apply doctype_errors_other]. }
    apply in_app_or in H as [H|H].
    + apply in_map_iff in H as (b & E & Hb).
      unfold missingBlock in E. apply app_inv_head in E. now subst b.
    + now apply Hout in H; [|apply metadata_errors_other].
  - intros H. apply in_or_app. right. apply in_or_app. left. now apply in_map.
Qed.


(** C4, as the code has it: a document that lacks the identifier attribute
    of the metadata block has no metadata extracted, so the metadata checks
    push nothing, and its error array holds the missing-block error of the
    metadata block. *)
Theorem absent_identifier_skips_metadata (content : jsstring) :
  includes content (idAttribute (js "hc-metadata")) = false ->
  metadata_block content = None
  /\ metadata_findings content = no_findings
  /\ In (missingBlock (js "hc-metadata")) (errors (validate_findings content)).
Proof.
  intros H.
  assert (Hb : metadata_block content = None).
  { destruct (metadata_block content) eqn:E; [|reflexivity].
    assert (Hi : includes content (idAttribute (js "hc-metadata")) = true).
    { apply (@blockPattern_includes (js "<script") _ (js "</script>")).
      unfold metadata_block, metadataPattern in E. congruence. }
    congruence. }
  split; [exact Hb|]. split.
  - unfold metadata_findings, check_metadata. unfold metadata_block in Hb.
    now rewrite Hb.
  - apply missingBlock_In. unfold missing_blocks. apply filter_In.
    split; [left; reflexivity|now rewrite H].
Qed.

End RunFacts.

(* ================================================================== *)
(** ** The field checks on parsed metadata *)

Section FieldFacts.
Context {rt : Runtime}.

Lemma pushes_ext {A} (m m' : M A) de dw c :
  (forall s, m s = m' s) -> pushes m' de dw c -> pushes m de dw c.
Proof. intros E H s. rewrite E. apply H. Qed.

Lemma for_of_ext {A} (body body' : A -> M unit) (l : list A) :
  (forall x s, body x s = body' x s) ->
  forall s, for_of l body s = for_of l body' s.
Proof.
  intros E. induction l as [|x l IH]; intros s; simpl; [reflexivity|].
  unfold bind. rewrite E. destruct (body' x s) as [s' [[]|e]]; auto.
Qed.

Lemma Get_nonnull (metadata : json) (key : jsstring) :
  metadata <> JNull -> Get metadata key = Normal (field_value metadata key).
Proof.
  intros H. unfold field_value.
  destruct metadata; try reflexivity. now elim H.
Qed.

Lemma field_value_nonnull (metadata : json) (key : jsstring) (v : json) :
  field_value metadata key = Some v -> metadata <> JNull.
Proof. intros H ->. discriminate. Qed.

Lemma truthy_nonnull (metadata : json) (key : jsstring) :
  truthy (field_value metadata key) = true -> metadata <> JNull.
Proof. intros H ->. discriminate. Qed.

(** The required-field loop pushes one error for each field that is absent
    or falsy, in the order of the list. *)
Lemma check_required_fields_pushes (metadata : json) :
  metadata <> JNull ->
  pushes (check_required_fields metadata)
         (map missingField (missing_fields metadata)) [] (Normal tt).
Proof.
  intros Hn. eapply pushes_ext;
    [|apply (for_of_missing
               (fun field => negb (truthy (field_value metadata field)))
               missingField REQUIRED_METADATA_FIELDS)].
  intros s. unfold check_required_fields. apply for_of_ext.
  intros x s'. unfold bind, eval. now rewrite Get_nonnull.
Qed.

(** On [null] the first read of a field throws. *)
Lemma check_required_fields_null :
  pushes (check_required_fields JNull) [] []
         (Throw (TypeError (ReadPropertyOfNull (js "hc_version")))).
Proof. intros [es ws]. cbn [errors warnings]. rewrite !app_nil_r. reflexivity. Qed.

Lemma later_checks_emits (PE PW : jsstring -> Prop) (metadata : json) :
  (forall found, PE (invalidType found)) ->
  (forall tsField found, PE (invalidTimestamp tsField found)) ->
  (forall found, PW (versionWarning found)) ->
  PW idFormatWarning ->
  (forall n, PW (shortSummary n)) ->
  emits PE PW (later_checks metadata).
Proof.
  intros. unfold later_checks, check_version, check_type, check_artifact_id,
    check_timestamps, check_summary.
  classify; auto.
Qed.

(** What the metadata checks push once the text has parsed. *)
Lemma metadata_findings_normal (content text : jsstring) (metadata : json) de dw :
  metadata_block content = Some text ->
  JSON_parse text = Some metadata ->
  pushes (check_required_fields metadata ;; later_checks metadata) de dw (Normal tt) ->
  metadata_findings content = Findings de dw.
Proof.
  intros Hb Hp H. unfold metadata_findings, check_metadata.
  unfold metadata_block in Hb. rewrite Hb.
  unfold try_catch, metadata_checks, parse_metadata. rewrite Hp.
  change (bind (ret metadata) ?f no_findings) with (f metadata no_findings).
  cbv beta. fold (later_checks metadata). now rewrite (pushes_run H).
Qed.

Lemma metadata_findings_thrown (content text : jsstring) (metadata : json) de dw e :
  metadata_block content = Some text ->
  JSON_parse text = Some metadata ->
  pushes (check_required_fields metadata ;; later_checks metadata) de dw (Throw e) ->
  metadata_findings content = Findings (de ++ [invalidJson (Error_message e)]) dw.
Proof.
  intros Hb Hp H. unfold metadata_findings, check_metadata.
  unfold metadata_block in Hb. rewrite Hb.
  unfold try_catch, metadata_checks, parse_metadata. rewrite Hp.
  change (bind (ret metadata) ?f no_findings) with (f metadata no_findings).
  cbv beta. fold (later_checks metadata). now rewrite (pushes_run H).
Qed.

End FieldFacts.

(* ================================================================== *)
(** ** Metadata that parses but is not an object with usable fields *)

Section NullFacts.
Context {rt : Runtime}.

Lemma structure_errors_otherThanField (content : jsstring) :
  Forall otherThanField
    (doctype_errors content ++ map missingBlock (missing_blocks content)).
Proof.
  apply Forall_app. split; [apply doctype_errors_other; reflexivity|].
  apply Forall_forall. intros e He. apply in_map_iff in He as (b & <- & _).
  reflexivity.
Qed.

(** C6 at the document whose metadata block is [null]: the text parses, all
    seven fields are absent, and yet no missing-field error is pushed; the
    only error of the metadata checks is the one that reports invalid JSON. *)
Theorem null_metadata_reports_no_field :
  metadata_block Examples.nullMetadata = Some (js "null")
  /\ JSON_parse (js "null") = Some JNull
  /\ errors (metadata_findings Examples.nullMetadata)
     = [invalidJson (Error_message (TypeError (ReadPropertyOfNull (js "hc_version"))))]
  /\ forall field,
       occurrences (missingField field)
                   (errors (validate_findings Examples.nullMetadata)) = 0.
Proof.
  assert (Hb : metadata_block Examples.nullMetadata = Some (js "null"))
    by (vm_compute; reflexivity).
  assert (Hp : JSON_parse (js "null") = Some JNull) by (vm_compute; reflexivity).
  assert (Hm : metadata_findings Examples.nullMetadata
               = Findings [invalidJson (Error_message
                             (TypeError (ReadPropertyOfNull (js "hc_version"))))] []).
  { rewrite (metadata_findings_thrown _ Hb Hp
               (pushes_bind_throw _ check_required_fields_null)).
    reflexivity. }
  split; [exact Hb|]. split; [exact Hp|]. split; [now rewrite Hm|].
  intros field. rewrite validate_errors, app_assoc, occurrences_app.
  rewrite (@occurrences_none otherThanField _ _ (@missingField_not_other field)
             (structure_errors_otherThanField _)).
  rewrite Hm. simpl.
  apply (@occurrences_none otherThanField); [apply missingField_not_other|].
  repeat constructor.
Qed.


End NullFacts.

(* ================================================================== *)
(** ** Batches *)

Section BatchFacts.
Context {rt : Runtime}.
Variable fs : filesystem.

Lemma validate_result_bit (filePath content : jsstring) :
  fs filePath = inl content ->
  validate fs filePath
  = (document_report fs filePath,
     Returned (if document_failed fs filePath then 1%Z else 0%Z)).
Proof.
  intros H. unfold document_report, document_failed.
  rewrite (validate_readable fs filePath H). simpl.
  rewrite report_result. now destruct (errors _).
Qed.

Lemma main_loop_readable (args : list jsstring) : forall exitCode,
  (forall p, In p args -> exists content, fs p = inl content) ->
  main_loop fs args exitCode
  = (flat_map (document_report fs) args,
     ExitWith (if existsb (document_failed fs) args then 1%Z else exitCode)).
Proof.
  induction args as [|p args IH]; intros exitCode H; [reflexivity|].
  destruct (H p (or_introl eq_refl)) as [content Hp].
  cbn [main_loop]. rewrite (validate_result_bit Hp).
  rewrite IH by (intros q Hq; apply H; now right).
  cbn [flat_map existsb]. destruct (document_failed fs p); simpl; [|reflexivity].
  now destruct (existsb _ _).
Qed.

Lemma main_loop_unreadable (ok : list jsstring) (bad : jsstring)
  (post : list jsstring) (message : jsstring) : forall exitCode,
  (forall p, In p ok -> exists content, fs p = inl content) ->
  fs bad = inr message ->
  main_loop fs (ok ++ bad :: post) exitCode
  = (flat_map (document_report fs) ok
     ++ [LogError (js "Error reading file: " ++ message)],
     ExitWith 1).
Proof.
  induction ok as [|p ok IH]; intros exitCode H Hbad.
  - cbn [app main_loop]. unfold validate. now rewrite Hbad.
  - destruct (H p (or_introl eq_refl)) as [content Hp].
    cbn [app main_loop]. rewrite (validate_result_bit Hp).
    rewrite IH by (try (intros q Hq; apply H; now right); assumption).
    cbn [flat_map]. now rewrite app_assoc.
Qed.

(** C1, as the code has it: the files of a batch are validated and reported
    in order, each completely and whatever the findings of the others, up to
    the first file that cannot be read; that file ends the whole run with
    the I/O failure and exit code 1, and nothing after it is validated. *)
Theorem batch_runs_until_unreadable (ok : list jsstring) :
  (forall p, In p ok -> exists content, fs p = inl content) ->
  (ok <> [] ->
   main fs ok = (flat_map (document_report fs) ok, ExitWith (batch_code fs ok)))
  /\ (forall bad post message,
        fs bad = inr message ->
        main fs (ok ++ bad :: post)
        = (flat_map (document_report fs) ok
           ++ [LogError (js "Error reading file: " ++ message)],
           ExitWith 1)).
Proof.
  intros H. split.
  - intros Hne. destruct ok as [|p ok']; [contradiction|].
    unfold main, batch_code. now rewrite main_loop_readable.
  - intros bad post message Hbad.
    replace (main fs (ok ++ bad :: post)) with (main_loop fs (ok ++ bad :: post) 0).
    + now apply main_loop_unreadable.
    + unfold main. now destruct ok.
Qed.

End BatchFacts.

(* ================================================================== *)
(** ** The field checks, one by one *)

(** Shows that a statement made of the field checks is framed. *)
Ltac framing :=
  apply (@framed_of_emits _ (fun _ => True) (fun _ => True));
  unfold later_checks, check_required_fields, check_version, check_type,
    check_artifact_id, check_timestamps, check_summary;
  classify; exact I.

Section StepFacts.
Context {rt : Runtime}.







Lemma Array_includes_truthy (l : list jsstring) (v : value) :
  ~ In [] l -> Array_includes l v = true -> truthy v = true.
Proof.
  intros Hn H. destruct v as [[| | |w| |]|]; try discriminate.
  destruct w; [|reflexivity]. simpl in H.
  apply existsb_exists in H as (x & Hx & E). destruct x; [contradiction|discriminate].
Qed.

Lemma VALID_TYPES_nonempty : ~ In [] VALID_TYPES.
Proof. simpl. intros [H|[H|[H|[H|[H|[]]]]]]; discriminate. Qed.

Lemma check_type_valid (metadata : json) :
  Array_includes VALID_TYPES (field_value metadata (js "hc_type")) = true ->
  pushes (check_type metadata) [] [] (Normal tt).
Proof.
  intros Hi. eapply pushes_ext; [|apply pushes_ret].
  assert (Ht : truthy (field_value metadata (js "hc_type")) = true)
    by (eapply Array_includes_truthy; [apply VALID_TYPES_nonempty|exact Hi]).
  intros s. unfold check_type, bind, eval.
  rewrite !(Get_nonnull _ (truthy_nonnull _ Ht)), Ht, Hi. reflexivity.
Qed.


Lemma missing_fields_nil (metadata : json) :
  missing_fields metadata = [] ->
  forall field, In field REQUIRED_METADATA_FIELDS ->
    truthy (field_value metadata field) = true.
Proof.
  intros H field Hin. unfold missing_fields in H.
  assert (Hf : ~ In field (filter (fun f => negb (truthy (field_value metadata f)))
                             REQUIRED_METADATA_FIELDS)) by (rewrite H; auto).
  rewrite filter_In in Hf. destruct (truthy _); [reflexivity|].
  exfalso. apply Hf. now split.
Qed.

Lemma missing_fields_all (metadata : json) :
  (forall field, In field REQUIRED_METADATA_FIELDS ->
     truthy (field_value metadata field) = true) ->
  missing_fields metadata = [].
Proof.
  intros H. unfold missing_fields.
  induction REQUIRED_METADATA_FIELDS as [|field l IH]; [reflexivity|].
  simpl. rewrite (H field (or_introl eq_refl)). simpl.
  apply IH. intros f Hf. apply H. now right.
Qed.

End StepFacts.

(** Membership in the list of required fields, and difference of two field
    names. *)
Ltac required_field := repeat first [ left; reflexivity | right ].

(* ================================================================== *)
(** ** Changing the type of a passing document *)

Section TypeFacts.
Context {rt : Runtime}.

(** The field checks of a document whose metadata parsed and left no error. *)
Lemma passing_metadata_clean (content text : jsstring) (metadata : json) :
  metadata_block content = Some text ->
  JSON_parse text = Some metadata ->
  errors (metadata_findings content) = [] ->
  clean (check_required_fields metadata ;; later_checks metadata).
Proof.
  intros Hb Hp He.
  assert (Hf : framed (check_required_fields metadata ;; later_checks metadata))
    by framing.
  destruct Hf as (d & w & [[]|e] & H).
  - rewrite (metadata_findings_normal content Hb Hp H) in He. simpl in He.
    subst d. now exists w.
  - rewrite (metadata_findings_thrown content Hb Hp H) in He. simpl in He.
    destruct d; discriminate.
Qed.



End TypeFacts.

(* ================================================================== *)
(** ** The summary check *)

Section SummaryFacts.
Context {rt : Runtime}.

Lemma Date_isNaN_printable (v : value) (text : jsstring) :
  ToString v = Normal text -> exists b, Date_isNaN v = Normal b.
Proof.
  intros H. destruct v as [[| | | | |]|]; simpl in *; eauto;
    rewrite H; eauto.
Qed.

(** The checks before the summary check complete normally on metadata
    whose fields can be printed. *)
Lemma check_version_total (metadata : json) :
  metadata <> JNull -> printable (field_value metadata (js "hc_version")) ->
  total (check_version metadata).
Proof.
  intros Hn [text Ht] s. unfold check_version, bind, eval.
  rewrite !(Get_nonnull _ Hn).
  destruct (truthy _); [destruct (strict_ne _ _)|]; rewrite ?Ht;
    eexists _, _; reflexivity.
Qed.

Lemma check_type_total (metadata : json) :
  metadata <> JNull -> printable (field_value metadata (js "hc_type")) ->
  total (check_type metadata).
Proof.
  intros Hn [text Ht] s. unfold check_type, bind, eval.
  rewrite !(Get_nonnull _ Hn).
  destruct (truthy _); [destruct (Array_includes _ _)|]; rewrite ?Ht;
    eexists _, _; reflexivity.
Qed.

Lemma check_artifact_id_total (metadata : json) :
  metadata <> JNull -> printable (field_value metadata (js "artifact_id")) ->
  total (check_artifact_id metadata).
Proof.
  intros Hn [text Ht] s. unfold check_artifact_id, bind, eval.
  rewrite !(Get_nonnull _ Hn).
  destruct (truthy _); rewrite ?Ht; [destruct (test _ _)|];
    eexists _, _; reflexivity.
Qed.

(** The check of one timestamp field. *)
Lemma timestamp_total (metadata : json) (tsField : jsstring) :
  metadata <> JNull -> printable (field_value metadata tsField) ->
  total (v <- eval (Get metadata tsField) ;;
         if truthy v then
           v' <- eval (Get metadata tsField) ;;
           nan <- eval (Date_isNaN v') ;;
           if nan : bool then
             v'' <- eval (Get metadata tsField) ;;
             found <- eval (ToString v'') ;;
             push_error (invalidTimestamp tsField found)
           else ret tt
         else ret tt).
Proof.
  intros Hn [text Ht] s. unfold bind, eval.
  destruct (Date_isNaN_printable _ Ht) as [b D].
  rewrite !(Get_nonnull _ Hn).
  destruct (truthy _); rewrite ?D; [destruct b|]; rewrite ?Ht;
    eexists _, _; reflexivity.
Qed.

Lemma check_timestamps_total (metadata : json) :
  metadata <> JNull ->
  printable (field_value metadata (js "created")) ->
  printable (field_value metadata (js "updated")) ->
  total (check_timestamps metadata).
Proof.
  intros Hn H1 H2. unfold check_timestamps. cbn [for_of].
  apply total_bind; [now apply timestamp_total|intros _].
  apply total_bind; [now apply timestamp_total|intros _].
  apply total_ret.
Qed.

(** What a check pushes when it completes normally, none of its warnings
    being a short-summary warning. *)
Lemma step_pushes (m : M unit) :
  emits (fun _ => True) otherThanSummary m -> total m ->
  exists d w, pushes m d w (Normal tt) /\ Forall otherThanSummary w.
Proof.
  intros He Ht. destruct (emits_total He Ht) as (d & w & [] & H & _ & Hw).
  now exists d, w.
Qed.

Lemma pushes_when_warning (b : bool) (msg : jsstring) :
  pushes (when b (push_warning msg)) [] (if b then [msg] else []) (Normal tt).
Proof. destruct b; [apply pushes_push_warning|apply pushes_ret]. Qed.



End SummaryFacts.

(* ================================================================== *)
(** ** Required fields of metadata other than [null] *)

Section RequiredFacts.
Context {rt : Runtime}.

(** The errors of the metadata checks on parsed metadata other than
    [null]: the missing-field errors, then errors of other kinds. *)
Lemma metadata_errors_parsed (content text : jsstring) (metadata : json) :
  metadata_block content = Some text ->
  JSON_parse text = Some metadata ->
  metadata <> JNull ->
  exists later,
    errors (metadata_findings content)
    = map missingField (missing_fields metadata) ++ later
    /\ Forall otherThanField later.
Proof.
  intros Hb Hp Hn.
  destruct (later_checks_emits otherThanField (fun _ => True) metadata)
    as (d & w & c & H & Hd & _); try (intros; reflexivity); auto.
  pose proof (pushes_seq (check_required_fields_pushes Hn) H) as Hall.
  destruct c as [[]|e].
  - exists d. split; [|exact Hd].
    now rewrite (metadata_findings_normal content Hb Hp Hall).
  - exists (d ++ [invalidJson (Error_message e)]). split.
    + rewrite (metadata_findings_thrown content Hb Hp Hall). simpl.
      now rewrite app_assoc.
    + apply Forall_app. split; [exact Hd|]. repeat constructor.
Qed.

(** X4: away from [null] the required-field loop reports what it should: when
    the metadata block parses to any value but [null], the error array holds
    the missing-field error of a required field exactly when the field is
    absent or falsy. *)
Theorem required_fields_reported
  (content text : jsstring) (metadata : json) (field : jsstring) :
  metadata_block content = Some text ->
  JSON_parse text = Some metadata ->
  metadata <> JNull ->
  In field REQUIRED_METADATA_FIELDS ->
  In (missingField field) (errors (validate_findings content))
  <-> truthy (field_value metadata field) = false.
Proof.
  intros Hb Hp Hn Hin.
  destruct (metadata_errors_parsed content Hb Hp Hn) as (later & He & Hl).
  rewrite validate_errors, He, app_assoc.
  assert (Hout : forall l, Forall otherThanField l -> ~ In (missingField field) l).
  { intros l Hf Hi. rewrite Forall_forall in Hf.
    exact (missingField_not_other (Hf _ Hi)). }
  split.
  - intros H. apply in_app_or in H as [H|H].
    { now apply Hout in H; [|apply structure_errors_otherThanField]. }
    apply in_app_or in H as [H|H]; [|now apply Hout in H].
    apply in_map_iff in H as (f & E & Hf). apply missingField_inj in E. subst f.
    unfold missing_fields in Hf. apply filter_In in Hf as [_ Hf].
    now apply negb_true_iff in Hf.
  - intros H. apply in_or_app. right. apply in_or_app. left.
    apply in_map. unfold missing_fields. apply filter_In.
    split; [exact Hin|now rewrite H].
Qed.

End RequiredFacts.

(* ================================================================== *)
(** ** The language the matcher accepts *)

Section Semantics.

Lemma orelse_None {A} (x y : option A) : orelse x y = None -> x = None /\ y = None.
Proof. destruct x; simpl; [discriminate|auto]. Qed.

Lemma star_loop_sound g r :
  sound (rmatch r) r ->
  forall n, sound (fun s k => star_loop (rmatch r) g k n s) (Star g r).
Proof.
  intros Hr n. induction n as [|n IH]; intros s k res H; simpl in H.
  - exists s. split; [constructor|exact H].
  - assert (Hround :
      rmatch r s (fun s' => if length (rest s') <? length (rest s)
                            then star_loop (rmatch r) g k n s' else None) = Some res
      -> exists s', matches (Star g r) (pos s) (pos s') /\ k s' = Some res).
    { intros E. apply Hr in E as (s1 & M1 & E).
      destruct (length (rest s1) <? length (rest s)) eqn:El; [|discriminate].
      apply Nat.ltb_lt in El.
      apply IH in E as (s2 & M2 & E). exists s2. split; [|exact E].
      eapply matches_Star_round; [exact M1|exact El|exact M2]. }
    destruct g; apply orelse_Some in H as [H|H]; auto;
      exists s; (split; [constructor|exact H]).
Qed.

Lemma rmatch_sound (r : regex) : sound (rmatch r) r.
Proof.
  induction r as [|p|a IHa b IHb|a IHa b IHb|g r IH|i r IH| |];
    intros s k res H; simpl in H.
  - exists s. split; [constructor|exact H].
  - destruct s as [i t caps]. simpl in H. destruct t as [|c t]; [discriminate|].
    destruct (p c) eqn:Ep; [|discriminate].
    eexists. split; [|exact H]. now constructor.
  - apply IHa in H as (s1 & M1 & H). apply IHb in H as (s2 & M2 & H).
    exists s2. split; [econstructor; eassumption|exact H].
  - apply orelse_Some in H as [H|H]; [apply IHa in H|apply IHb in H];
      destruct H as (s' & M & H); exists s'; (split; [|exact H]).
    + now apply matches_Alt_left.
    + now apply matches_Alt_right.
  - exact (star_loop_sound g IH (length (rest s)) s k H).
  - apply IH in H as (s1 & M & H). eexists. split; [|exact H].
    now constructor.
  - destruct s as [i t caps]. simpl in H. destruct i; [|discriminate].
    eexists. split; [|exact H]. constructor.
  - destruct s as [i t caps]. simpl in H. destruct t; [|discriminate].
    eexists. split; [|exact H]. constructor.
Qed.

(** Whatever can match, the matcher finds a match, provided the rest of the
    pattern accepts it. *)
Lemma rmatch_complete (r : regex) (x y : position) :
  matches r x y ->
  (forall s k, pos s = x -> accepts k y -> rmatch r s k <> None)
  /\ match r with
     | Star g r' =>
         forall s k n, pos s = x -> length (snd x) <= n -> accepts k y ->
           star_loop (rmatch r') g k n s <> None
     | _ => True
     end.
Proof.
  induction 1 as [x|p i c t Hp|a b x y z _ [IHa _] _ [IHb _]
                 |a b x y _ [IH _]|a b x y _ [IH _]
                 |g r x|g r x y z _ [IHr _] Hlt _ [_ IHs]
                 |i r x y _ [IH _]|t|i].
  - split; [|exact I]. intros s k E A. now apply A.
  - split; [|exact I]. intros [j t' caps] k E A. injection E as -> ->.
    simpl. rewrite Hp. now apply A.
  - split; [|exact I]. intros s k E A. simpl.
    apply IHa; [exact E|]. intros s' E'. now apply IHb.
  - split; [|exact I]. intros s k E A. simpl. intros N.
    apply orelse_None in N as [N _]. revert N. now apply IH.
  - split; [|exact I]. intros s k E A. simpl. intros N.
    apply orelse_None in N as [_ N]. revert N. now apply IH.
  - assert (Hloop : forall s k n, pos s = x -> length (snd x) <= n -> accepts k x ->
                      star_loop (rmatch r) g k n s <> None).
    { intros s k n E _ A. destruct n; simpl; [now apply A|].
      intros N. destruct g; apply orelse_None in N as [N1 N2];
        [revert N2|revert N1]; now apply A. }
    split; [|exact Hloop]. intros s k E A. simpl. apply Hloop; auto.
    rewrite <- E. simpl. lia.
  - assert (Hloop : forall s k n, pos s = x -> length (snd x) <= n -> accepts k z ->
                      star_loop (rmatch r) g k n s <> None).
    { intros s k n E Hn A. destruct n; [lia|]. simpl.
      assert (Hround :
        rmatch r s (fun s' => if length (rest s') <? length (rest s)
                              then star_loop (rmatch r) g k n s' else None) <> None).
      { apply IHr; [exact E|]. intros s' E'.
        assert (El : length (rest s') < length (rest s)).
        { rewrite <- E, <- E' in Hlt. exact Hlt. }
        apply Nat.ltb_lt in El. rewrite El.
        apply IHs; [exact E'| |exact A]. apply Nat.ltb_lt in El.
        rewrite <- E in Hn. rewrite <- E'. simpl in *. lia. }
      intros N. destruct g; apply orelse_None in N as [N1 N2]; contradiction. }
    split; [|exact Hloop]. intros s k E A. simpl. apply Hloop; auto.
    rewrite <- E. simpl. lia.
  - split; [|exact I]. intros s k E A. simpl. apply IH; [exact E|].
    intros s' E'. apply A. exact E'.
  - split; [|exact I]. intros [j t' caps] k E A. injection E as -> ->.
    simpl. now apply A.
  - split; [|exact I]. intros [j t' caps] k E A. injection E as -> ->.
    simpl. now apply A.
Qed.

End Semantics.

Section Language.

Lemma matchAt_iff (r : regex) (i : nat) (t : jsstring) :
  matchAt r i t <> None <-> exists y, matches r (i, t) y.
Proof.
  unfold matchAt. split.
  - intros H. destruct (rmatch r _ Some) as [res|] eqn:E; [|contradiction].
    apply rmatch_sound in E as (s' & M & _). now exists (pos s').
  - intros [y M]. apply (proj1 (rmatch_complete M)); [reflexivity|].
    intros s _. discriminate.
Qed.

Lemma execFrom_iff (r : regex) (t : jsstring) : forall i,
  execFrom r i t <> None
  <-> exists u t' y, t = u ++ t' /\ matches r (i + length u, t') y.
Proof.
  induction t as [|c t IH]; intros i; simpl.
  - destruct (matchAt r i []) eqn:E.
    + split; [intros _|discriminate].
      assert (H : matchAt r i [] <> None) by congruence.
      apply matchAt_iff in H as [y M]. exists [], [], y. simpl.
      now rewrite Nat.add_0_r.
    + split; [contradiction|]. intros (u & t' & y & Eu & M).
      destruct u; [|discriminate]. simpl in Eu. subst t'.
      simpl in M. rewrite Nat.add_0_r in M.
      assert (H : matchAt r i [] <> None) by (apply matchAt_iff; now exists y).
      contradiction.
  - destruct (matchAt r i (c :: t)) eqn:E.
    + split; [intros _|discriminate].
      assert (H : matchAt r i (c :: t) <> None) by congruence.
      apply matchAt_iff in H as [y M]. exists [], (c :: t), y. simpl.
      now rewrite Nat.add_0_r.
    + rewrite IH. split.
      * intros (u & t' & y & -> & M). exists (c :: u), t', y. simpl.
        split; [reflexivity|]. now rewrite <- Nat.add_succ_comm.
      * intros (u & t' & y & Eu & M). destruct u as [|d u].
        { simpl in Eu. subst t'. simpl in M. rewrite Nat.add_0_r in M.
          assert (H : matchAt r i (c :: t) <> None) by (apply matchAt_iff; now exists y).
          contradiction. }
        injection Eu as -> ->. exists u, t', y. split; [reflexivity|].
        simpl in M. now rewrite Nat.add_succ_comm.
Qed.

Lemma test_iff (r : regex) (s : jsstring) :
  test r s = true <-> exists u t y, s = u ++ t /\ matches r (length u, t) y.
Proof.
  unfold test, exec. rewrite <- (execFrom_iff r s 0).
  destruct (execFrom r 0 s); split; congruence.
Qed.

Lemma matches_Seq_inv a b x z :
  matches (Seq a b) x z <-> exists y, matches a x y /\ matches b y z.
Proof.
  split.
  - intros H. inversion H; subst. eauto.
  - intros (y & Ha & Hb). econstructor; eassumption.
Qed.

Lemma matches_Char_inv (p : N -> bool) i t z :
  matches (Char p) (i, t) z
  <-> exists c t', t = c :: t' /\ p c = true /\ z = (S i, t').
Proof.
  split.
  - intros H. inversion H; subst. eauto.
  - intros (c & t' & -> & Hp & ->). now constructor.
Qed.

Lemma matches_Lit (w : jsstring) : forall i t z,
  matches (Lit w) (i, t) z <-> exists t', t = w ++ t' /\ z = (i + length w, t').
Proof.
  induction w as [|c w IH]; intros i t z; cbn [Lit length app].
  - rewrite Nat.add_0_r. split.
    + intros H. inversion H; subst. now exists t.
    + intros (t' & -> & ->). constructor.
  - replace (i + S (length w)) with (S i + length w) by lia.
    rewrite matches_Seq_inv. split.
    + intros (y & Hc & Hw).
      apply matches_Char_inv in Hc as (d & t1 & -> & Hd & ->).
      apply IH in Hw as (t' & -> & ->). apply N.eqb_eq in Hd. subst d.
      now exists t'.
    + intros (t' & -> & ->). exists (S i, w ++ t'). split.
      * constructor. apply N.eqb_refl.
      * apply IH. now exists t'.
Qed.

Lemma matches_Star_Char g (p : N -> bool) i t z :
  matches (Star g (Char p)) (i, t) z
  <-> exists u t', forallb p u = true /\ t = u ++ t' /\ z = (i + length u, t').
Proof.
  split.
  - intros H. remember (Star g (Char p)) as r eqn:Er. remember (i, t) as x eqn:Ex.
    revert i t Ex. induction H; try discriminate; injection Er as -> ->; intros i t ->.
    + exists [], t. simpl. now rewrite Nat.add_0_r.
    + apply matches_Char_inv in H as (c & t1 & -> & Hc & ->).
      destruct (IHmatches2 eq_refl (S i) t1 eq_refl) as (u & t' & Hu & -> & ->).
      exists (c :: u), t'. cbn [forallb length app]. rewrite Hc, Hu.
      repeat split. f_equal. lia.
  - intros (u & t' & Hu & -> & ->). revert i. induction u as [|c u IH]; intros i.
    + cbn [length app]. rewrite Nat.add_0_r. constructor.
    + cbn [forallb] in Hu. apply andb_true_iff in Hu as [Hc Hu].
      apply matches_Star_round with (y := (S i, u ++ t')).
      * now constructor.
      * simpl. lia.
      * specialize (IH Hu (S i)). cbn [length app].
        replace (i + S (length u)) with (S i + length u) by lia. exact IH.
Qed.

Lemma matches_Plus_Char (p : N -> bool) i t z :
  matches (Plus (Char p)) (i, t) z
  <-> exists u t', u <> [] /\ forallb p u = true /\ t = u ++ t'
                   /\ z = (i + length u, t').
Proof.
  unfold Plus. rewrite matches_Seq_inv. split.
  - intros (y & Hc & Hs).
    apply matches_Char_inv in Hc as (c & t1 & -> & Hc & ->).
    apply matches_Star_Char in Hs as (u & t' & Hu & -> & ->).
    exists (c :: u), t'. cbn [forallb length app]. rewrite Hc, Hu.
    repeat split; [discriminate|]. f_equal. lia.
  - intros (u & t' & Hne & Hu & -> & ->). destruct u as [|c u]; [contradiction|].
    cbn [forallb] in Hu. apply andb_true_iff in Hu as [Hc Hu].
    exists (S i, u ++ t'). split; [now constructor|].
    apply matches_Star_Char. exists u, t'. repeat split; [exact Hu|].
    cbn [length]. f_equal. lia.
Qed.

Lemma matches_Group_inv i r x y : matches (Group i r) x y <-> matches r x y.
Proof. split; [intros H; now inversion H|now constructor]. Qed.

Lemma matches_Alt_inv a b x y :
  matches (Alt a b) x y <-> matches a x y \/ matches b x y.
Proof.
  split.
  - intros H. inversion H; subst; auto.
  - intros [H|H]; [now apply matches_Alt_left|now apply matches_Alt_right].
Qed.

End Language.

(* ================================================================== *)
(** ** The languages of the patterns *)

Section Patterns.

Lemma matches_Bol_inv x y : matches Bol x y <-> exists t, x = (0, t) /\ y = (0, t).
Proof.
  split.
  - intros H. inversion H; subst. eauto.
  - intros (t & -> & ->). constructor.
Qed.

Lemma matches_Eol_inv x y : matches Eol x y <-> exists i, x = (i, []) /\ y = (i, []).
Proof.
  split.
  - intros H. inversion H; subst. eauto.
  - intros (i & -> & ->). constructor.
Qed.

(** The alternation of the five type names. *)
Lemma matches_types i t z :
  matches (Alt (Lit (js "registry")) (Alt (Lit (js "skill"))
            (Alt (Lit (js "artifact")) (Alt (Lit (js "identity"))
                 (Lit (js "framework")))))) (i, t) z
  <-> exists type t', In type VALID_TYPES /\ t = type ++ t'
                      /\ z = (i + length type, t').
Proof.
  rewrite !matches_Alt_inv, !matches_Lit. unfold VALID_TYPES. split.
  - intros [H|[H|[H|[H|H]]]]; destruct H as (t' & -> & ->);
      eexists _, t'; (split; [|split; reflexivity]); simpl; tauto.
  - intros (type & t' & Hin & -> & ->). simpl in Hin.
    destruct Hin as [<-|[<-|[<-|[<-|[<-|[]]]]]]; [left|right; left|right; right; left
      |right; right; right; left|right; right; right; right]; now exists t'.
Qed.

(** The identifiers that [idPattern] accepts. *)
Lemma idPattern_conforming (s : jsstring) :
  test idPattern s = true <-> conforming s.
Proof.
  rewrite test_iff. unfold idPattern. cbn [Cat]. split.
  - intros (u & t & y & -> & M).
    apply matches_Seq_inv in M as (y1 & M1 & M).
    apply matches_Bol_inv in M1 as (t0 & E & ->). injection E as Eu <-.
    destruct u; [|discriminate]. clear Eu. cbn [app].
    apply matches_Seq_inv in M as (y2 & M2 & M).
    apply matches_Lit in M2 as (t1 & -> & ->).
    apply matches_Seq_inv in M as (y3 & M3 & M).
    apply matches_Group_inv, matches_types in M3 as (type & t2 & Hin & -> & ->).
    apply matches_Seq_inv in M as (y4 & M4 & M).
    apply matches_Lit in M4 as (t3 & -> & ->).
    apply matches_Seq_inv in M as (y5 & M5 & M).
    apply matches_Plus_Char in M5 as (slug & t4 & Hs & Hslug & -> & ->).
    apply matches_Seq_inv in M as (y6 & M6 & M).
    apply matches_Lit in M6 as (t5 & -> & ->).
    apply matches_Seq_inv in M as (y7 & M7 & M).
    apply matches_Plus_Char in M7 as (stamp & t6 & Hd & Hstamp & -> & ->).
    apply matches_Eol_inv in M as (i & E & _). injection E as _ ->.
    exists type, slug, stamp. rewrite app_nil_r. repeat split; assumption.
  - intros (type & slug & stamp & -> & Hin & Hs & Hslug & Hd & Hstamp).
    exists [], (js "hc-" ++ type ++ js "-" ++ slug ++ js "-" ++ stamp).
    eexists. split; [reflexivity|].
    apply matches_Seq_inv. eexists. split; [constructor|].
    apply matches_Seq_inv. eexists. split; [apply matches_Lit; eauto|].
    apply matches_Seq_inv. eexists. split;
      [apply matches_Group_inv, matches_types; eauto|].
    apply matches_Seq_inv. eexists. split; [apply matches_Lit; eauto|].
    apply matches_Seq_inv. eexists. split;
      [apply matches_Plus_Char; exists slug; eauto|].
    apply matches_Seq_inv. eexists. split; [apply matches_Lit; eauto|].
    apply matches_Seq_inv. eexists. split;
      [apply matches_Plus_Char; exists stamp, []; rewrite app_nil_r; eauto|].
    constructor.
Qed.

Lemma anyChar_all (u : jsstring) : forallb anyChar u = true.
Proof.
  induction u as [|c u IH]; [reflexivity|]. simpl. rewrite IH.
  unfold anyChar. now destruct (isWhiteSpace c).
Qed.

(** X2: a block is extracted exactly from the documents that have an element
    for it: somewhere the text of the opening tag, then attributes free of
    [>] around the identifier attribute, the end of the tag, and later the
    closing tag. *)
Theorem block_extracted_iff (opening blockId closing s : jsstring) :
  match1 (blockPattern opening blockId closing) s <> None
  <-> hasBlock opening blockId closing s.
Proof.
  assert (E : match1 (blockPattern opening blockId closing) s <> None
              <-> test (blockPattern opening blockId closing) s = true).
  { unfold match1, test. destruct (exec _ s); split; congruence. }
  rewrite E, test_iff. unfold blockPattern, hasBlock. cbn [Cat]. split.
  - intros (u & t & y & -> & M).
    apply matches_Seq_inv in M as (y1 & M1 & M).
    apply matches_Lit in M1 as (t1 & -> & ->).
    apply matches_Seq_inv in M as (y2 & M2 & M).
    apply matches_Star_Char in M2 as (attrs & t2 & Ha & -> & ->).
    apply matches_Seq_inv in M as (y3 & M3 & M).
    apply matches_Lit in M3 as (t3 & -> & ->).
    apply matches_Seq_inv in M as (y4 & M4 & M).
    apply matches_Star_Char in M4 as (attrs' & t4 & Ha' & -> & ->).
    apply matches_Seq_inv in M as (y5 & M5 & M).
    apply matches_Lit in M5 as (t5 & -> & ->).
    apply matches_Seq_inv in M as (y6 & M6 & M).
    apply matches_Group_inv, matches_Star_Char in M6 as (body & t6 & _ & -> & ->).
    apply matches_Lit in M as (after & -> & _).
    exists u, attrs, attrs', body, after. repeat split; assumption.
  - intros (before & attrs & attrs' & body & after & -> & Ha & Ha').
    exists before. eexists. eexists. split; [reflexivity|].
    apply matches_Seq_inv. eexists. split; [apply matches_Lit; eauto|].
    apply matches_Seq_inv. eexists. split;
      [apply matches_Star_Char; exists attrs; eauto|].
    apply matches_Seq_inv. eexists. split; [apply matches_Lit; eauto|].
    apply matches_Seq_inv. eexists. split;
      [apply matches_Star_Char; exists attrs'; eauto|].
    apply matches_Seq_inv. eexists. split; [apply matches_Lit; eauto|].
    apply matches_Seq_inv. eexists. split;
      [apply matches_Group_inv, matches_Star_Char; exists body;
       eexists; split; [apply anyChar_all|eauto]|].
    apply matches_Lit. eauto.
Qed.

End Patterns.

(* ================================================================== *)
(** ** What each field check pushes *)

Section ChainFacts.
Context {rt : Runtime}.

Lemma lacks_not_In (prefix msg : jsstring) (l : list jsstring) :
  startsWith msg prefix = true -> Forall (lacks prefix) l -> ~ In msg l.
Proof.
  intros Hm Hl Hin. rewrite Forall_forall in Hl. specialize (Hl _ Hin).
  unfold lacks in Hl. congruence.
Qed.

(** What the metadata checks push once the text has parsed, whether or not
    a field check throws. *)
Lemma metadata_findings_parsed (content text : jsstring) (metadata : json) de dw c :
  metadata_block content = Some text ->
  JSON_parse text = Some metadata ->
  pushes (check_required_fields metadata ;; later_checks metadata) de dw c ->
  metadata_findings content
  = Findings (de ++ match c with
                    | Normal _ => []
                    | Throw e => [invalidJson (Error_message e)]
                    end) dw.
Proof.
  intros Hb Hp H. destruct c as [[]|e].
  - rewrite (metadata_findings_normal content Hb Hp H). now rewrite app_nil_r.
  - apply (metadata_findings_thrown content Hb Hp H).
Qed.

(** Two statements in a row, the first of which may throw: the second adds
    its findings after those of the first, if it runs at all. *)
Lemma pushes_then (m1 m2 : M unit) d1 w1 c1 d2 w2 c2 :
  pushes m1 d1 w1 c1 -> pushes m2 d2 w2 c2 ->
  exists d w c,
    pushes (m1 ;; m2) (d1 ++ d) (w1 ++ w) c
    /\ incl d d2 /\ incl w w2.
Proof.
  intros H1 H2. destruct c1 as [[]|e].
  - exists d2, w2, c2. split; [exact (pushes_seq H1 H2)|].
    split; apply incl_refl.
  - exists [], [], (Throw e). rewrite !app_nil_r.
    split; [exact (pushes_bind_throw _ H1)|]. split; apply incl_nil_l.
Qed.

Lemma check_version_pushes (metadata : json) :
  metadata <> JNull ->
  exists c, pushes (check_version metadata) []
                   (version_warnings (field_value metadata (js "hc_version"))) c.
Proof.
  intros Hn. unfold version_warnings.
  destruct (truthy (field_value metadata (js "hc_version"))) eqn:Et;
    [destruct (strict_ne (field_value metadata (js "hc_version")) (js "1.1")) eqn:Es;
     [destruct (ToString (field_value metadata (js "hc_version"))) as [found|e] eqn:Ef|]|];
    cbn [andb].
  - exists (Normal tt). eapply pushes_ext; [|apply pushes_push_warning].
    intros s. unfold check_version, bind, eval.
    rewrite !(Get_nonnull _ Hn), Et, Es, Ef. reflexivity.
  - exists (Throw e). eapply pushes_ext; [|apply pushes_throw].
    intros s. unfold check_version, bind, eval, throw.
    rewrite !(Get_nonnull _ Hn), Et, Es, Ef. reflexivity.
  - exists (Normal tt). eapply pushes_ext; [|apply pushes_ret].
    intros s. unfold check_version, bind, eval.
    rewrite !(Get_nonnull _ Hn), Et, Es. reflexivity.
  - exists (Normal tt). eapply pushes_ext; [|apply pushes_ret].
    intros s. unfold check_version, bind, eval.
    rewrite !(Get_nonnull _ Hn), Et. reflexivity.
Qed.

Lemma check_type_pushes (metadata : json) :
  metadata <> JNull ->
  exists c, pushes (check_type metadata)
                   (type_errors (field_value metadata (js "hc_type"))) [] c.
Proof.
  intros Hn. unfold type_errors.
  destruct (truthy (field_value metadata (js "hc_type"))) eqn:Et;
    [destruct (Array_includes VALID_TYPES (field_value metadata (js "hc_type"))) eqn:Es;
     [|destruct (ToString (field_value metadata (js "hc_type"))) as [found|e] eqn:Ef]|];
    cbn [andb negb].
  - exists (Normal tt). eapply pushes_ext; [|apply pushes_ret].
    intros s. unfold check_type, bind, eval.
    rewrite !(Get_nonnull _ Hn), Et, Es. reflexivity.
  - exists (Normal tt). eapply pushes_ext; [|apply pushes_push_error].
    intros s. unfold check_type, bind, eval.
    rewrite !(Get_nonnull _ Hn), Et, Es, Ef. reflexivity.
  - exists (Throw e). eapply pushes_ext; [|apply pushes_throw].
    intros s. unfold check_type, bind, eval, throw.
    rewrite !(Get_nonnull _ Hn), Et, Es, Ef. reflexivity.
  - exists (Normal tt). eapply pushes_ext; [|apply pushes_ret].
    intros s. unfold check_type, bind, eval.
    rewrite !(Get_nonnull _ Hn), Et. reflexivity.
Qed.

Lemma check_timestamp_pushes (metadata : json) (tsField : jsstring) :
  metadata <> JNull ->
  exists c, pushes (check_timestamp metadata tsField)
                   (timestamp_errors tsField (field_value metadata tsField)) [] c.
Proof.
  intros Hn. unfold timestamp_errors.
  destruct (truthy (field_value metadata tsField)) eqn:Et;
    [destruct (Date_isNaN (field_value metadata tsField)) as [[|]|e] eqn:Ed;
     [destruct (ToString (field_value metadata tsField)) as [found|e] eqn:Ef| |]|].
  - exists (Normal tt). eapply pushes_ext; [|apply pushes_push_error].
    intros s. unfold check_timestamp, bind, eval.
    rewrite !(Get_nonnull _ Hn), Et, Ed, Ef. reflexivity.
  - exists (Throw e). eapply pushes_ext; [|apply pushes_throw].
    intros s. unfold check_timestamp, bind, eval, throw.
    rewrite !(Get_nonnull _ Hn), Et, Ed, Ef. reflexivity.
  - exists (Normal tt). eapply pushes_ext; [|apply pushes_ret].
    intros s. unfold check_timestamp, bind, eval.
    rewrite !(Get_nonnull _ Hn), Et, Ed. reflexivity.
  - exists (Throw e). eapply pushes_ext; [|apply pushes_throw].
    intros s. unfold check_timestamp, bind, eval, throw.
    rewrite !(Get_nonnull _ Hn), Et, Ed. reflexivity.
  - exists (Normal tt). eapply pushes_ext; [|apply pushes_ret].
    intros s. unfold check_timestamp, bind, eval.
    rewrite !(Get_nonnull _ Hn), Et. reflexivity.
Qed.

(** The artifact-id check on a non-empty string. *)
Lemma check_artifact_id_string (metadata : json) (id : jsstring) :
  field_value metadata (js "artifact_id") = Some (JStr id) -> id <> [] ->
  pushes (check_artifact_id metadata) []
         (if test idPattern id then [] else [idFormatWarning]) (Normal tt).
Proof.
  intros Hv Hne. pose proof (field_value_nonnull _ Hv) as Hn.
  destruct id as [|a id']; [contradiction|].
  destruct (test idPattern (a :: id')) eqn:Et.
  - eapply pushes_ext; [|apply pushes_ret].
    intros s. unfold check_artifact_id, bind, eval.
    rewrite !(Get_nonnull _ Hn), Hv. cbn [truthy ToString ToString_json].
    now rewrite Et.
  - eapply pushes_ext; [|apply pushes_push_warning].
    intros s. unfold check_artifact_id, bind, eval.
    rewrite !(Get_nonnull _ Hn), Hv. cbn [truthy ToString ToString_json].
    now rewrite Et.
Qed.

Lemma check_timestamps_unfold (metadata : json) :
  check_timestamps metadata
  = (check_timestamp metadata (js "created") ;;
     check_timestamp metadata (js "updated") ;; ret tt).
Proof. reflexivity. Qed.

(** *** Messages told apart *)

Lemma versionWarning_inj (a b : jsstring) : versionWarning a = versionWarning b -> a = b.
Proof.
  unfold versionWarning. intros H.
  repeat apply app_inv_head in H. now apply app_inv_tail in H.
Qed.

Lemma invalidType_inj (a b : jsstring) : invalidType a = invalidType b -> a = b.
Proof.
  unfold invalidType. intros H.
  apply app_inv_head in H. now apply app_inv_tail in H.
Qed.

Lemma invalidTimestamp_inj (f a b : jsstring) :
  invalidTimestamp f a = invalidTimestamp f b -> a = b.
Proof. unfold invalidTimestamp. intros H. now repeat apply app_inv_head in H. Qed.

End ChainFacts.

(* ================================================================== *)
(** ** The version, type, timestamp and identifier checks *)

(** Unfolds the field checks down to the combinators, loops unrolled. *)
Ltac unfold_checks :=
  unfold later_checks, check_required_fields, check_version, check_type,
    check_artifact_id, check_timestamps, check_summary, REQUIRED_METADATA_FIELDS;
  cbn [for_of].

Section VersionAndType.
Context {rt : Runtime}.

Lemma emits_of_pushes {A} (PE PW : jsstring -> Prop) (m : M A) de dw c :
  pushes m de dw c -> Forall PE de -> Forall PW dw -> emits PE PW m.
Proof. intros H He Hw. now exists de, dw, c. Qed.

Lemma null_or_not (metadata : json) : metadata = JNull \/ metadata <> JNull.
Proof. destruct metadata; (now left) || (right; discriminate). Qed.

Lemma structure_errors_lack (prefix : jsstring) (content : jsstring) :
  lacks prefix missingDoctype ->
  (forall blockId, lacks prefix (missingBlock blockId)) ->
  Forall (lacks prefix)
    (doctype_errors content ++ map missingBlock (missing_blocks content)).
Proof.
  intros Hd Hb. apply Forall_app. split; [now apply doctype_errors_other|].
  apply Forall_forall. intros e He. apply in_map_iff in He as (b & <- & _). apply Hb.
Qed.

(** The warnings of a run: those of the metadata checks, then those of the
    instructions and documentation checks. *)
Lemma validate_warnings (content : jsstring) :
  warnings (validate_findings content)
  = warnings (metadata_findings content) ++ warnings (content_findings content).
Proof. now rewrite validate_findings_stages. Qed.

Lemma content_warnings_lack (prefix : jsstring) (content : jsstring) :
  lacks prefix shortInstructions -> lacks prefix noSteps ->
  lacks prefix shortHumanDocs ->
  Forall (lacks prefix) (warnings (content_findings content)).
Proof.
  intros H1 H2 H3.
  destruct (content_pushes (lacks prefix) content H1 H2 H3) as (wc & Hc & Wc).
  unfold content_findings. now rewrite (pushes_run Hc).
Qed.

(** X6: the version warning is pushed exactly for a value of [hc_version] that
    is truthy and is not the string [1.1], and it shows that value. *)
Theorem version_warning_iff
  (content text : jsstring) (metadata : json) (found : jsstring) :
  metadata_block content = Some text ->
  JSON_parse text = Some metadata ->
  metadata <> JNull ->
  In (versionWarning found) (warnings (validate_findings content))
  <-> truthy (field_value metadata (js "hc_version")) = true
      /\ strict_ne (field_value metadata (js "hc_version")) (js "1.1") = true
      /\ ToString (field_value metadata (js "hc_version")) = Normal found.
Proof.
  intros Hb Hp Hn.
  set (P := js "hc_version should be ").
  assert (HP : forall x, startsWith (versionWarning x) P = true) by reflexivity.
  destruct (check_version_pushes Hn) as [c1 H1].
  assert (Htail : emits (fun _ => True) (lacks P)
            (check_type metadata ;; check_artifact_id metadata ;;
             check_timestamps metadata ;; check_summary metadata)).
  { unfold_checks. classify; auto; reflexivity. }
  destruct Htail as (d2 & w2 & c2 & H2 & _ & W2).
  destruct (pushes_then H1 H2) as (d & w & c & H12 & _ & Iw).
  pose proof (pushes_seq (check_required_fields_pushes Hn) H12) as H.
  rewrite validate_warnings, (metadata_findings_parsed content Hb Hp H).
  cbn [warnings app].
  assert (Hout : ~ In (versionWarning found) (w ++ warnings (content_findings content))).
  { eapply lacks_not_In; [exact (HP found)|]. apply Forall_app. split.
    - apply Forall_forall. intros x Hx. rewrite Forall_forall in W2. auto.
    - apply content_warnings_lack; reflexivity. }
  rewrite <- app_assoc. split.
  - intros Hin. apply in_app_or in Hin as [Hin|Hin]; [|contradiction].
    unfold version_warnings in Hin.
    destruct (truthy _); [|contradiction].
    destruct (strict_ne _ _); [|contradiction]. cbn [andb] in Hin.
    destruct (ToString _) as [found'|e]; [|contradiction].
    destruct Hin as [E|[]]. apply versionWarning_inj in E. now subst found'.
  - intros (Ht & Hs & Hf). apply in_or_app. left.
    unfold version_warnings. rewrite Ht, Hs, Hf. now left.
Qed.

(** X7: an invalid-type error is only ever pushed for metadata whose [hc_type]
    is truthy and outside the allowed names, and it shows that value. *)
Theorem invalid_type_only_when_warranted (content found : jsstring) :
  In (invalidType found) (errors (validate_findings content)) ->
  exists text metadata,
    metadata_block content = Some text
    /\ JSON_parse text = Some metadata
    /\ truthy (field_value metadata (js "hc_type")) = true
    /\ Array_includes VALID_TYPES (field_value metadata (js "hc_type")) = false
    /\ ToString (field_value metadata (js "hc_type")) = Normal found.
Proof.
  set (P := js "Invalid hc_type: ").
  assert (HP : startsWith (invalidType found) P = true) by reflexivity.
  rewrite validate_errors, app_assoc. intros Hin.
  apply in_app_or in Hin as [Hin|Hin].
  { exfalso. revert Hin. eapply lacks_not_In; [exact HP|].
    apply structure_errors_lack; intros; reflexivity. }
  destruct (metadata_block content) as [text|] eqn:Hb.
  2:{ exfalso. unfold metadata_findings, check_metadata in Hin.
      unfold metadata_block in Hb. rewrite Hb in Hin. exact Hin. }
  destruct (JSON_parse text) as [metadata|] eqn:Hp.
  2:{ exfalso. unfold metadata_findings, check_metadata in Hin.
      unfold metadata_block in Hb. rewrite Hb in Hin.
      unfold try_catch, metadata_checks, parse_metadata, bind in Hin.
      rewrite Hp in Hin. destruct Hin as [E|[]].
      apply (f_equal (fun w => startsWith w P)) in E. rewrite HP in E. discriminate. }
  exists text, metadata. split; [reflexivity|]. split; [exact Hp|].
  destruct (null_or_not metadata) as [->|Hn].
  { exfalso.
    rewrite (metadata_findings_thrown content Hb Hp
               (pushes_bind_throw _ check_required_fields_null)) in Hin.
    destruct Hin as [E|[]].
    apply (f_equal (fun w => startsWith w P)) in E. rewrite HP in E. discriminate. }
  set (v := field_value metadata (js "hc_type")) in *.
  destruct (check_type_pushes Hn) as [c2 H2]. fold v in H2.
  assert (Hall : emits (fun x => lacks P x \/ In x (type_errors v)) (fun _ => True)
                   (check_required_fields metadata ;; later_checks metadata)).
  { unfold later_checks.
    apply emits_bind; [unfold_checks; classify; auto; left; reflexivity|intros _].
    apply emits_bind; [unfold_checks; classify; auto; left; reflexivity|intros _].
    apply emits_bind; [|intros _; unfold_checks; classify; auto; left; reflexivity].
    eapply emits_of_pushes; [exact H2| |constructor].
    apply Forall_forall. intros x Hx. now right. }
  destruct Hall as (d & w & c & H & Hd & _).
  rewrite (metadata_findings_parsed content Hb Hp H) in Hin. cbn [errors] in Hin.
  assert (Hte : In (invalidType found) (type_errors v)).
  { apply in_app_or in Hin as [Hin|Hin].
    - rewrite Forall_forall in Hd. destruct (Hd _ Hin) as [L|I]; [|exact I].
      unfold lacks in L. congruence.
    - destruct c as [[]|e]; [contradiction|]. destruct Hin as [E|[]].
      apply (f_equal (fun w => startsWith w P)) in E. rewrite HP in E. discriminate. }
  unfold type_errors in Hte.
  destruct (truthy v); [|contradiction].
  destruct (Array_includes VALID_TYPES v); [contradiction|]. cbn [andb negb] in Hte.
  destruct (ToString v) as [found'|e]; [|contradiction].
  destruct Hte as [E|[]]. apply invalidType_inj in E. now subst found'.
Qed.

End VersionAndType.

Section TimestampAndIdentifier.
Context {rt : Runtime}.

(** The errors of the metadata checks when no metadata is parsed, or when it
    is [null]: at most the one that reports invalid JSON. *)
Lemma unparsed_metadata_errors (content : jsstring) (x : jsstring) :
  (forall text metadata,
     metadata_block content = Some text -> JSON_parse text = Some metadata ->
     metadata = JNull) ->
  In x (errors (metadata_findings content)) -> exists message, x = invalidJson message.
Proof.
  intros Hnone Hin.
  destruct (metadata_block content) as [text|] eqn:Hb.
  2:{ exfalso. unfold metadata_findings, check_metadata in Hin.
      unfold metadata_block in Hb. rewrite Hb in Hin. exact Hin. }
  destruct (JSON_parse text) as [metadata|] eqn:Hp.
  - rewrite (Hnone text metadata eq_refl Hp) in Hp.
    rewrite (metadata_findings_thrown content Hb Hp
               (pushes_bind_throw _ check_required_fields_null)) in Hin.
    destruct Hin as [<-|[]]. eauto.
  - unfold metadata_findings, check_metadata in Hin.
    unfold metadata_block in Hb. rewrite Hb in Hin.
    unfold try_catch, metadata_checks, parse_metadata, bind in Hin.
    rewrite Hp in Hin. destruct Hin as [<-|[]]. eauto.
Qed.

(** X9: an invalid-timestamp error for [created] or [updated] is only ever
    pushed for metadata in which that field is truthy and does not parse as
    a date, and it shows the value of the field. *)
Theorem invalid_timestamp_only_when_warranted (content tsField found : jsstring) :
  In tsField [js "created"; js "updated"] ->
  In (invalidTimestamp tsField found) (errors (validate_findings content)) ->
  exists text metadata,
    metadata_block content = Some text
    /\ JSON_parse text = Some metadata
    /\ truthy (field_value metadata tsField) = true
    /\ Date_isNaN (field_value metadata tsField) = Normal true
    /\ ToString (field_value metadata tsField) = Normal found.
Proof.
  intros Hts.
  set (P := js "Invalid " ++ tsField ++ js " timestamp: ").
  assert (HP : startsWith (invalidTimestamp tsField found) P = true).
  { destruct Hts as [<-|[<-|[]]]; reflexivity. }
  rewrite validate_errors, app_assoc. intros Hin.
  apply in_app_or in Hin as [Hin|Hin].
  { exfalso. revert Hin. eapply lacks_not_In; [exact HP|].
    apply structure_errors_lack; intros; destruct Hts as [<-|[<-|[]]]; reflexivity. }
  destruct (metadata_block content) as [text|] eqn:Hb.
  2:{ exfalso. apply unparsed_metadata_errors in Hin as [message E].
      - apply (f_equal (fun w => startsWith w P)) in E. rewrite HP in E.
        destruct Hts as [<-|[<-|[]]]; discriminate.
      - unfold metadata_block in *. congruence. }
  destruct (JSON_parse text) as [metadata|] eqn:Hp.
  2:{ exfalso. apply unparsed_metadata_errors in Hin as [message E].
      - apply (f_equal (fun w => startsWith w P)) in E. rewrite HP in E.
        destruct Hts as [<-|[<-|[]]]; discriminate.
      - unfold metadata_block in *. congruence. }
  exists text, metadata. split; [reflexivity|]. split; [exact Hp|].
  destruct (null_or_not metadata) as [->|Hn].
  { exfalso. apply unparsed_metadata_errors in Hin as [message E].
    - apply (f_equal (fun w => startsWith w P)) in E. rewrite HP in E.
      destruct Hts as [<-|[<-|[]]]; discriminate.
    - unfold metadata_block in *. congruence. }
  set (v := field_value metadata tsField) in *.
  destruct (check_timestamp_pushes tsField Hn) as [c2 H2]. fold v in H2.
  assert (Hall : emits (fun x => lacks P x \/ In x (timestamp_errors tsField v))
                   (fun _ => True)
                   (check_required_fields metadata ;; later_checks metadata)).
  { assert (Hown : emits (fun x => lacks P x \/ In x (timestamp_errors tsField v))
                     (fun _ => True) (check_timestamp metadata tsField)).
    { eapply emits_of_pushes; [exact H2| |constructor].
      apply Forall_forall. intros x Hx. now right. }
    unfold later_checks. rewrite check_timestamps_unfold.
    destruct Hts as [<-|[<-|[]]].
    - apply emits_bind; [unfold_checks; classify; auto; left; reflexivity|intros _].
      apply emits_bind; [unfold_checks; classify; auto; left; reflexivity|intros _].
      apply emits_bind; [unfold_checks; classify; auto; left; reflexivity|intros _].
      apply emits_bind; [unfold_checks; classify; auto; left; reflexivity|intros _].
      apply emits_bind; [|intros _; unfold_checks; classify; auto; left; reflexivity].
      apply emits_bind; [exact Hown|intros _].
      unfold check_timestamp. classify; auto; left; reflexivity.
    - apply emits_bind; [unfold_checks; classify; auto; left; reflexivity|intros _].
      apply emits_bind; [unfold_checks; classify; auto; left; reflexivity|intros _].
      apply emits_bind; [unfold_checks; classify; auto; left; reflexivity|intros _].
      apply emits_bind; [unfold_checks; classify; auto; left; reflexivity|intros _].
      apply emits_bind; [|intros _; unfold_checks; classify; auto; left; reflexivity].
      apply emits_bind; [unfold check_timestamp; classify; auto; left; reflexivity
                        |intros _].
      apply emits_bind; [exact Hown|intros _; apply emits_ret]. }
  destruct Hall as (d & w & c & H & Hd & _).
  rewrite (metadata_findings_parsed content Hb Hp H) in Hin. cbn [errors] in Hin.
  assert (Hte : In (invalidTimestamp tsField found) (timestamp_errors tsField v)).
  { apply in_app_or in Hin as [Hin|Hin].
    - rewrite Forall_forall in Hd. destruct (Hd _ Hin) as [L|I]; [|exact I].
      unfold lacks in L. congruence.
    - destruct c as [[]|e]; [contradiction|]. destruct Hin as [E|[]].
      apply (f_equal (fun w => startsWith w P)) in E. rewrite HP in E.
      destruct Hts as [<-|[<-|[]]]; discriminate. }
  unfold timestamp_errors in Hte.
  destruct (truthy v); [|contradiction].
  destruct (Date_isNaN v) as [[|]|e]; try contradiction.
  destruct (ToString v) as [found'|e]; [|contradiction].
  destruct Hte as [E|[]]. apply invalidTimestamp_inj in E. now subst found'.
Qed.

(** X8: when the version and type fields can be printed and the identifier is
    a non-empty string, the format warning is pushed exactly for an
    identifier that is not of the form [hc-<type>-<slug>-<timestamp>]. *)
Theorem artifact_id_warning_iff
  (content text : jsstring) (metadata : json) (id : jsstring) :
  metadata_block content = Some text ->
  JSON_parse text = Some metadata ->
  printable (field_value metadata (js "hc_version")) ->
  printable (field_value metadata (js "hc_type")) ->
  field_value metadata (js "artifact_id") = Some (JStr id) ->
  id <> [] ->
  In idFormatWarning (warnings (validate_findings content)) <-> ~ conforming id.
Proof.
  intros Hb Hp Hpv Hpt Hv Hne.
  pose proof (field_value_nonnull _ Hv) as Hn.
  set (P := js "artifact_id format").
  assert (HP : startsWith idFormatWarning P = true) by reflexivity.
  destruct (emits_total (PE:=fun _ => True) (PW:=lacks P) (m:=check_version metadata))
    as (d1 & w1 & [] & H1 & _ & W1);
    [unfold_checks; classify; auto; reflexivity|now apply check_version_total|].
  destruct (emits_total (PE:=fun _ => True) (PW:=lacks P) (m:=check_type metadata))
    as (d2 & w2 & [] & H2 & _ & W2);
    [unfold_checks; classify; auto; reflexivity|now apply check_type_total|].
  pose proof (check_artifact_id_string metadata Hv Hne) as H3.
  assert (Htail : emits (fun _ => True) (lacks P)
            (check_timestamps metadata ;; check_summary metadata)).
  { unfold_checks. classify; auto; reflexivity. }
  destruct Htail as (d4 & w4 & c4 & H4 & _ & W4).
  pose proof (pushes_seq (check_required_fields_pushes Hn)
               (pushes_seq H1 (pushes_seq H2 (pushes_seq H3 H4)))) as H.
  rewrite validate_warnings, (metadata_findings_parsed content Hb Hp H).
  cbn [warnings app]. rewrite <- idPattern_conforming.
  assert (Hout : forall l, Forall (lacks P) l -> ~ In idFormatWarning l).
  { intros l Hl. eapply lacks_not_In; [exact HP|exact Hl]. }
  pose proof (content_warnings_lack (prefix:=P) content eq_refl eq_refl eq_refl) as Wc.
  rewrite <- !app_assoc. split.
  - intros Hin.
    apply in_app_or in Hin as [Hin|Hin]; [now apply Hout in Hin|].
    apply in_app_or in Hin as [Hin|Hin]; [now apply Hout in Hin|].
    apply in_app_or in Hin as [Hin|Hin].
    + destruct (test idPattern id); [contradiction|discriminate].
    + apply in_app_or in Hin as [Hin|Hin]; now apply Hout in Hin.
  - intros Ht. do 2 (apply in_or_app; right). apply in_or_app. left.
    destruct (test idPattern id); [contradiction|now left].
Qed.

End TimestampAndIdentifier.

(* ================================================================== *)
(** ** What is extracted for a block *)

Section Captures.

Lemma skipn_app_length (u t : jsstring) : skipn (length u) (u ++ t) = t.
Proof. induction u as [|c u IH]; [reflexivity|exact IH]. Qed.

Lemma firstn_app_length (u t : jsstring) : firstn (length u) (u ++ t) = u.
Proof. induction u as [|c u IH]; [reflexivity|]. simpl. now rewrite IH. Qed.

(** A literal is matched by its own characters and leaves the captures as
    they were. *)
Lemma rmatch_Lit_eq (w : jsstring) : forall i t caps k,
  rmatch (Lit w) (MState i t caps) k =
  if startsWith t w
  then k (MState (i + length w) (skipn (length w) t) caps)
  else None.
Proof.
  induction w as [|c w IH]; intros i t caps k; cbn [Lit rmatch rest endIndex captures].
  - cbn [startsWith length skipn]. now rewrite Nat.add_0_r.
  - destruct t as [|d t]; [reflexivity|].
    cbn [startsWith length skipn].
    destruct (N.eqb c d); [|reflexivity]. cbn [andb].
    rewrite IH. now rewrite Nat.add_succ_comm.
Qed.

Lemma rmatch_Lit_inv (w : jsstring) i t caps k res :
  rmatch (Lit w) (MState i t caps) k = Some res ->
  exists t', t = w ++ t' /\ k (MState (i + length w) t' caps) = Some res.
Proof.
  rewrite rmatch_Lit_eq. destruct (startsWith t w) eqn:E; [|discriminate].
  apply startsWith_inv in E as [t' ->]. rewrite skipn_app_length.
  intros H. now exists t'.
Qed.

(** A run of characters of one class takes some characters of the class. *)
Lemma star_Char_inv (p : N -> bool) (g : bool) k (n : nat) : forall i t caps res,
  star_loop (rmatch (Char p)) g k n (MState i t caps) = Some res ->
  exists u t', t = u ++ t' /\ forallb p u = true
    /\ k (MState (i + length u) t' caps) = Some res.
Proof.
  induction n as [|n IH]; intros i t caps res H; cbn [star_loop] in H.
  - exists [], t. cbn [app forallb length]. now rewrite Nat.add_0_r.
  - assert (Hstop : k (MState i t caps) = Some res ->
      exists u t', t = u ++ t' /\ forallb p u = true
        /\ k (MState (i + length u) t' caps) = Some res).
    { intros Hk. exists [], t. cbn [app forallb length]. now rewrite Nat.add_0_r. }
    assert (Hround :
      rmatch (Char p) (MState i t caps)
        (fun s' => if length (rest s') <? length (rest (MState i t caps))
                   then star_loop (rmatch (Char p)) g k n s' else None) = Some res ->
      exists u t', t = u ++ t' /\ forallb p u = true
        /\ k (MState (i + length u) t' caps) = Some res).
    { cbn [rmatch rest endIndex captures]. destruct t as [|c t]; [discriminate|].
      destruct (p c) eqn:Ec; [|discriminate].
      destruct (length t <? length (c :: t)); [|discriminate].
      intros Hr. apply IH in Hr as (u & t' & -> & Hu & Hk).
      exists (c :: u), t'. cbn [app forallb length]. rewrite Ec, Hu.
      now rewrite <- Nat.add_succ_comm. }
    destruct g; apply orelse_Some in H as [H|H]; auto.
Qed.

(** A lazy run of arbitrary characters stops at the first place where the
    rest of the pattern goes through. *)
Lemma lazy_any_inv k (n : nat) : forall i t caps res,
  star_loop (rmatch (Char anyChar)) false k n (MState i t caps) = Some res ->
  exists u t', t = u ++ t'
    /\ k (MState (i + length u) t' caps) = Some res
    /\ forall a b, u = a ++ b -> b <> [] ->
         k (MState (i + length a) (b ++ t') caps) = None.
Proof.
  induction n as [|n IH]; intros i t caps res H; cbn [star_loop] in H.
  - exists [], t. cbn [app length]. rewrite Nat.add_0_r. repeat split; trivial.
    intros a b E Hb. destruct a, b; try discriminate. contradiction.
  - destruct (k (MState i t caps)) as [x|] eqn:Ek; cbn [orelse] in H.
    + exists [], t. cbn [app length]. rewrite Nat.add_0_r.
      split; [reflexivity|]. split; [congruence|].
      intros a b E Hb. destruct a, b; try discriminate. contradiction.
    + cbn [rmatch rest endIndex captures] in H. destruct t as [|c t]; [discriminate|].
      destruct (anyChar c); [|discriminate].
      destruct (length t <? length (c :: t)); [|discriminate].
      apply IH in H as (u & t' & -> & Hk & Hmin).
      exists (c :: u), t'. cbn [app length]. rewrite <- Nat.add_succ_comm.
      split; [reflexivity|]. split; [exact Hk|].
      intros a b E Hb. destruct a as [|c' a].
      * cbn [app length] in *. subst b. now rewrite Nat.add_0_r.
      * cbn [app length] in *. injection E as <- E.
        rewrite <- Nat.add_succ_comm. now apply Hmin.
Qed.

Lemma includes_inv (s x : jsstring) :
  includes s x = true -> exists a b, s = a ++ b /\ startsWith b x = true.
Proof.
  induction s as [|c s IH]; cbn [includes]; intros H.
  - rewrite orb_false_r in H. now exists [], [].
  - apply orb_true_iff in H as [H|H].
    + now exists [], (c :: s).
    + destruct (IH H) as (a & b & -> & Hb). now exists (c :: a), b.
Qed.

Lemma startsWith_app_l (b y x : jsstring) :
  startsWith b x = true -> startsWith (b ++ y) x = true.
Proof.
  intros H. apply startsWith_inv in H as [t ->].
  rewrite <- app_assoc. apply startsWith_app.
Qed.

(** What a match of a block pattern at a given place has read, and what it
    has captured. *)
Lemma blockPattern_capture (opening blockId closing : jsstring) i t m :
  matchAt (blockPattern opening blockId closing) i t = Some m ->
  exists attrs attrs' text after,
    t = opening ++ attrs ++ idAttribute blockId ++ attrs' ++ js ">"
        ++ text ++ closing ++ after
    /\ forallb notGt attrs = true /\ forallb notGt attrs' = true
    /\ capture 1 (captures m) = Some text
    /\ forall a b, text = a ++ b -> b <> [] ->
         startsWith (b ++ closing ++ after) closing = false.
Proof.
  unfold matchAt, blockPattern. cbn [Cat]. cbn [rmatch]. intros H.
  apply rmatch_Lit_inv in H as (t1 & -> & H).
  cbn [rest] in H.
  apply star_Char_inv in H as (attrs & t2 & -> & Ha & H).
  apply rmatch_Lit_inv in H as (t3 & -> & H).
  cbn [rest] in H.
  apply star_Char_inv in H as (attrs' & t4 & -> & Ha' & H).
  apply rmatch_Lit_inv in H as (t5 & -> & H).
  cbn [rest] in H.
  apply lazy_any_inv in H as (text & t6 & -> & H & Hmin).
  cbn [rest endIndex captures] in H.
  rewrite rmatch_Lit_eq in H.
  destruct (startsWith t6 closing) eqn:Ec; [|discriminate].
  injection H as <-.
  apply startsWith_inv in Ec as [after ->].
  exists attrs, attrs', text, after.
  split; [reflexivity|]. split; [exact Ha|]. split; [exact Ha'|]. split.
  - cbn [captures capture Nat.eqb].
    replace (_ + length text - _) with (length text) by lia.
    now rewrite firstn_app_length.
  - intros a b E Hb. specialize (Hmin a b E Hb).
    cbn [rest endIndex captures] in Hmin. rewrite rmatch_Lit_eq in Hmin.
    destruct (startsWith (b ++ closing ++ after) closing); [discriminate|reflexivity].
Qed.

End Captures.

(** X3: what is extracted for a block is the text between the end of an opening
    tag that carries the identifier and the first closing tag after it: the
    closing tag begins nowhere in the text extracted, and so the text does
    not contain it. *)
Theorem extracted_text_shape (opening blockId closing content text : jsstring) :
  closing <> [] ->
  match1 (blockPattern opening blockId closing) content = Some text ->
  (exists before attrs attrs' after,
     content = before ++ opening ++ attrs ++ idAttribute blockId ++ attrs'
               ++ js ">" ++ text ++ closing ++ after
     /\ forallb notGt attrs = true /\ forallb notGt attrs' = true
     /\ forall a b, text = a ++ b -> b <> [] ->
          startsWith (b ++ closing ++ after) closing = false)
  /\ includes text closing = false.
Proof.
  intros Hne H. unfold match1, exec in H.
  destruct (execFrom _ 0 content) as [m|] eqn:E; [|discriminate].
  apply execFrom_suffix in E as (j & t & [before ->] & Hm).
  apply blockPattern_capture in Hm as (attrs & attrs' & body & after & -> & Ha & Ha' & Hc & Hmin).
  rewrite Hc in H. injection H as <-.
  split.
  - exists before, attrs, attrs', after. repeat split; assumption.
  - destruct (includes body closing) eqn:Ei; [|reflexivity].
    apply includes_inv in Ei as (a & b & E & Hb).
    assert (Hbn : b <> []).
    { intros ->. destruct closing; [contradiction|discriminate]. }
    rewrite <- (Hmin a b E Hbn). symmetry. now apply startsWith_app_l.
Qed.

(* ================================================================== *)
(** ** The doctype, the content checks, the report and the exit code *)

Section ContentProperties.
Context {rt : Runtime}.

Lemma metadata_errors_lack (prefix : jsstring) (content : jsstring) :
  (forall field, lacks prefix (missingField field)) ->
  (forall found, lacks prefix (invalidType found)) ->
  (forall tsField found, lacks prefix (invalidTimestamp tsField found)) ->
  (forall message, lacks prefix (invalidJson message)) ->
  Forall (lacks prefix) (errors (metadata_findings content)).
Proof. apply metadata_errors_other. Qed.

Lemma metadata_warnings_lack (prefix : jsstring) (content : jsstring) :
  (forall found, lacks prefix (versionWarning found)) ->
  lacks prefix idFormatWarning ->
  (forall n, lacks prefix (shortSummary n)) ->
  Forall (lacks prefix) (warnings (metadata_findings content)).
Proof.
  intros H1 H2 H3.
  destruct (check_metadata_pushes (fun _ => True) (lacks prefix) content)
    as (de & dw & Hp & _ & Hw); auto.
  unfold metadata_findings. now rewrite (pushes_run Hp).
Qed.

Lemma occurrences_lack (prefix msg : jsstring) (l : list jsstring) :
  startsWith msg prefix = true -> Forall (lacks prefix) l -> occurrences msg l = 0.
Proof.
  intros Hm Hl. apply (@occurrences_none (lacks prefix)); [|exact Hl].
  unfold lacks. congruence.
Qed.

(** X1: the doctype error is pushed once, before every other error, for a
    document that does not begin with the doctype once trimmed and put in
    lower case, and never otherwise. *)
Theorem doctype_error_first (content : jsstring) :
  occurrences missingDoctype (errors (validate_findings content))
  = (if startsWith (String_toLowerCase (trim content)) (js "<!doctype html>")
     then 0 else 1)
  /\ (startsWith (String_toLowerCase (trim content)) (js "<!doctype html>") = false ->
      exists others, errors (validate_findings content) = missingDoctype :: others).
Proof.
  rewrite validate_errors. unfold doctype_errors.
  assert (Hrest : occurrences missingDoctype
                    (map missingBlock (missing_blocks content)
                     ++ errors (metadata_findings content)) = 0).
  { apply (@occurrences_lack (js "Missing HTML5")); [reflexivity|].
    apply Forall_app. split.
    - apply Forall_forall. intros e He. apply in_map_iff in He as (b & <- & _).
      reflexivity.
    - apply metadata_errors_lack; intros; reflexivity. }
  destruct (startsWith _ _).
  - split; [exact Hrest|discriminate].
  - split.
    + change ([missingDoctype] ++ ?l) with (missingDoctype :: l).
      unfold occurrences in *. cbn [filter]. rewrite eqb_refl. cbn [length].
      now rewrite Hrest.
    + intros _. eexists. reflexivity.
Qed.

(** What the instructions and documentation checks push. *)
Lemma content_warnings (content : jsstring) :
  warnings (content_findings content)
  = match match1 instructionsPattern content with
    | Some text =>
        (if length (trim text) <? 100 then [shortInstructions] else [])
        ++ (if includes (trim text) (js "Step") then [] else [noSteps])
    | None => []
    end
    ++ match match1 humanDocsPattern content with
       | Some text => if length (trim text) <? 200 then [shortHumanDocs] else []
       | None => []
       end.
Proof.
  unfold content_findings, check_instructions, check_human_docs.
  destruct (match1 instructionsPattern content) as [text|];
    destruct (match1 humanDocsPattern content) as [docs|]; cbv zeta;
    repeat match goal with
           | |- context [if ?b then _ else _] => destruct b
           end; reflexivity.
Qed.

Lemma shortInstructions_noSteps : shortInstructions <> noSteps.
Proof. intros E. apply eqb_eq in E. discriminate E. Qed.

Lemma shortInstructions_shortHumanDocs : shortInstructions <> shortHumanDocs.
Proof. intros E. apply eqb_eq in E. discriminate E. Qed.

Lemma noSteps_shortHumanDocs : noSteps <> shortHumanDocs.
Proof. intros E. apply eqb_eq in E. discriminate E. Qed.

(** Decides membership in the few warnings of the content checks. *)
Ltac content_cases :=
  repeat match goal with
         | H : In _ (_ ++ _) |- _ => apply in_app_or in H as [H|H]
         | H : In _ (if ?b then _ else _) |- _ => destruct b eqn:?
         | H : In _ [] |- _ => destruct H
         | H : In _ [_] |- _ => destruct H as [H|[]]
         | H : In _ (match ?x with _ => _ end) |- _ => destruct x eqn:?
         end.

(** X12: the two warnings about the instructions are pushed exactly for a
    document from which an instructions block is extracted whose trimmed
    text is shorter than 100 code units, respectively lacks the word
    [Step]. *)
Theorem instructions_warnings_iff (content : jsstring) :
  (In shortInstructions (warnings (validate_findings content))
   <-> exists text, match1 instructionsPattern content = Some text
                    /\ length (trim text) < 100)
  /\ (In noSteps (warnings (validate_findings content))
      <-> exists text, match1 instructionsPattern content = Some text
                       /\ includes (trim text) (js "Step") = false).
Proof.
  rewrite validate_warnings, content_warnings.
  assert (Hm : forall msg, startsWith msg (js "hc-") = true ->
                 ~ In msg (warnings (metadata_findings content))).
  { intros msg Hs. eapply lacks_not_In; [exact Hs|].
    apply metadata_warnings_lack; intros; reflexivity. }
  pose proof shortInstructions_noSteps as N1.
  pose proof shortInstructions_shortHumanDocs as N2.
  pose proof noSteps_shortHumanDocs as N3.
  split; split.
  - intros H. apply in_app_or in H as [H|H]; [now apply Hm in H|].
    content_cases; try congruence;
      eexists; (split; [reflexivity|]); now apply Nat.ltb_lt.
  - intros (text & -> & Hl). apply Nat.ltb_lt in Hl. rewrite Hl.
    apply in_or_app. right. apply in_or_app. left. apply in_or_app. left. now left.
  - intros H. apply in_app_or in H as [H|H]; [now apply Hm in H|].
    content_cases; try congruence; eexists; split; reflexivity || assumption.
  - intros (text & -> & Hl). rewrite Hl.
    apply in_or_app. right. apply in_or_app. left. apply in_or_app. right. now left.
Qed.

(** X13: the warning about the documentation is pushed exactly for a document
    from which a documentation block is extracted whose trimmed text is
    shorter than 200 code units. *)
Theorem human_docs_warning_iff (content : jsstring) :
  In shortHumanDocs (warnings (validate_findings content))
  <-> exists text, match1 humanDocsPattern content = Some text
                   /\ length (trim text) < 200.
Proof.
  rewrite validate_warnings, content_warnings.
  assert (Hm : forall msg, startsWith msg (js "hc-") = true ->
                 ~ In msg (warnings (metadata_findings content))).
  { intros msg Hs. eapply lacks_not_In; [exact Hs|].
    apply metadata_warnings_lack; intros; reflexivity. }
  pose proof shortInstructions_shortHumanDocs as N2.
  pose proof noSteps_shortHumanDocs as N3.
  split.
  - intros H. apply in_app_or in H as [H|H]; [now apply Hm in H|].
    content_cases; try congruence;
      eexists; (split; [reflexivity|]); now apply Nat.ltb_lt.
  - intros (text & -> & Hl). apply Nat.ltb_lt in Hl. rewrite Hl.
    apply in_or_app. right. apply in_or_app. right. now left.
Qed.

End ContentProperties.

Section ReportProperties.

Lemma item_inj (x y : jsstring) : item x = item y -> x = y.
Proof. unfold item. intros E. injection E as E. exact E. Qed.

Lemma In_item (x : jsstring) (l : list jsstring) : In (item x) (map item l) <-> In x l.
Proof.
  split.
  - intros H. apply in_map_iff in H as (y & E & Hy). apply item_inj in E. now subst y.
  - apply in_map.
Qed.

(** The lines of a report that are not list items begin with something else
    than a space. *)
Lemma item_not_line (x rest : jsstring) (c : N) : c <> 32%N -> item x <> Log (c :: rest).
Proof. unfold item. intros Hc E. injection E as E _. now elim Hc. Qed.

(** X15: among the lines of a report, the list items are the findings: every
    error and every warning is listed, and nothing else is. *)
Theorem report_lists_findings (name : jsstring) (f : findings) (x : jsstring) :
  In (item x) (fst (report name f)) <-> In x (errors f) \/ In x (warnings f).
Proof.
  unfold report.
  assert (Hh : forall w, item x <> Log (newline ++ w))
    by (intros w; now apply item_not_line).
  assert (Hv : forall w, item x <> Log (validMark ++ w))
    by (intros w; now apply item_not_line).
  assert (Hc : forall w, item x <> Log (crossMark ++ w))
    by (intros w; now apply item_not_line).
  destruct (errors f) as [|e es] eqn:Ee; destruct (warnings f) as [|w ws] eqn:Ew;
    cbn [length Nat.eqb Nat.ltb Nat.leb andb fst app].
  - split; [|intros [[]|[]]]. intros [H|[H|[]]]; symmetry in H.
    + now apply Hh in H. + now apply Hv in H.
  - rewrite <- (In_item x (w :: ws)). split.
    + intros [H|[H|H]]; [symmetry in H; now apply Hh in H
                        |symmetry in H; now apply Hh in H|].
      apply in_app_or in H as [H|[H|[]]]; [now right|].
      symmetry in H. now apply Hh in H.
    + intros [[]|H]. right. right. apply in_or_app. now left.
  - rewrite <- (In_item x (e :: es)). split.
    + intros [H|[H|H]]; [symmetry in H; now apply Hh in H
                        |symmetry in H; now apply Hc in H|].
      apply in_app_or in H as [H|[H|[]]]; [now left|].
      symmetry in H. now apply Hh in H.
    + intros [H|[]]. right. right. apply in_or_app. now left.
  - rewrite <- (In_item x (e :: es)), <- (In_item x (w :: ws)). split.
    + intros [H|[H|H]]; [symmetry in H; now apply Hh in H
                        |symmetry in H; now apply Hc in H|].
      apply in_app_or in H as [H|[H|H]]; [now left|symmetry in H; now apply Hh in H|].
      apply in_app_or in H as [H|[H|[]]]; [now right|].
      symmetry in H. now apply Hh in H.
    + intros [H|H]; right; right; apply in_or_app; [now left|].
      right. right. apply in_or_app. now left.
Qed.

(** X16: a file is declared valid exactly when it has no finding at all: a file
    with warnings only is not declared valid, although the result is 0. *)
Theorem valid_line_iff_no_findings (name : jsstring) (f : findings) :
  (In (Log (validMark ++ js " Valid HC file!")) (fst (report name f))
   <-> errors f = [] /\ warnings f = [])
  /\ (errors f = [] -> snd (report name f) = 0%Z).
Proof.
  split; [|intros E; now rewrite report_result, E].
  unfold report.
  assert (Hi : forall l, ~ In (Log (validMark ++ js " Valid HC file!")) (map item l)).
  { intros l H. apply in_map_iff in H as (y & E & _). discriminate E. }
  destruct (errors f) as [|e es] eqn:Ee; destruct (warnings f) as [|w ws] eqn:Ew;
    cbn [length Nat.eqb Nat.ltb Nat.leb andb fst app].
  - split; [auto|]. intros _. right. now left.
  - split; [|intros [_ E]; discriminate E].
    intros [H|[H|H]]; try discriminate H.
    apply in_app_or in H as [H|[H|[]]]; [now apply Hi in H|discriminate H].
  - split; [|intros [E _]; discriminate E].
    intros [H|[H|H]]; try discriminate H.
    apply in_app_or in H as [H|[H|[]]]; [now apply Hi in H|discriminate H].
  - split; [|intros [E _]; discriminate E].
    intros [H|[H|H]]; try discriminate H.
    apply in_app_or in H as [H|[H|H]]; [now apply Hi in H|discriminate H|].
    apply in_app_or in H as [H|[H|[]]]; [now apply Hi in H|discriminate H].
Qed.

End ReportProperties.

Section MainProperties.
Context {rt : Runtime}.
Variable fs : filesystem.

Lemma main_loop_code (args : list jsstring) : forall exitCode,
  (exitCode = 0 \/ exitCode = 1)%Z ->
  exists out code,
    main_loop fs args exitCode = (out, ExitWith code)
    /\ (code = 0 \/ code = 1)%Z
    /\ (code = 0%Z <->
        exitCode = 0%Z
        /\ forall p, In p args ->
             exists content, fs p = inl content
                             /\ errors (validate_findings content) = []).
Proof.
  induction args as [|p args IH]; intros exitCode Hc.
  - exists [], exitCode. split; [reflexivity|]. split; [exact Hc|].
    split; [intros ->; split; [reflexivity|intros p []]|now intros [-> _]].
  - cbn [main_loop]. destruct (fs p) as [content|message] eqn:Ep.
    + rewrite (validate_readable fs p Ep), report_result.
      destruct (errors (validate_findings content)) as [|e es] eqn:Ee.
      * cbn [Z.eqb]. destruct (IH exitCode Hc) as (out & code & -> & Hcode & Hiff).
        eexists _, code. split; [reflexivity|]. split; [exact Hcode|].
        rewrite Hiff. split.
        -- intros [H0 Hall]. split; [exact H0|]. intros q [<-|Hq]; [|now apply Hall].
           exists content. now split.
        -- intros [H0 Hall]. split; [exact H0|]. intros q Hq. apply Hall. now right.
      * cbn [Z.eqb]. destruct (IH 1%Z (or_intror eq_refl)) as (out & code & -> & Hcode & Hiff).
        eexists _, code. split; [reflexivity|]. split; [exact Hcode|].
        rewrite Hiff. split; [intros [H _]; discriminate H|].
        intros [_ Hall]. destruct (Hall p (or_introl eq_refl)) as (content' & E & He).
        rewrite Ep in E. injection E as <-. rewrite Ee in He. discriminate He.
    + unfold validate. rewrite Ep.
      eexists _, 1%Z. split; [reflexivity|]. split; [now right|].
      split; [discriminate|].
      intros [_ Hall]. destruct (Hall p (or_introl eq_refl)) as (content' & E & _).
      rewrite Ep in E. discriminate E.
Qed.

(** X17: the script always ends through [process.exit], with code 0 or 1, and
    the code is 0 exactly when it was given at least one file and every
    file could be read and has an empty error array. *)
Theorem main_exit_code (args : list jsstring) :
  exists out code,
    main fs args = (out, ExitWith code)
    /\ (code = 0 \/ code = 1)%Z
    /\ (code = 0%Z <->
        args <> []
        /\ forall p, In p args ->
             exists content, fs p = inl content
                             /\ errors (validate_findings content) = []).
Proof.
  destruct args as [|p args].
  - eexists _, 1%Z. split; [reflexivity|]. split; [now right|].
    split; [discriminate|]. now intros [H _].
  - destruct (main_loop_code (p :: args) (or_introl eq_refl))
      as (out & code & E & Hcode & Hiff).
    exists out, code. split; [exact E|]. split; [exact Hcode|].
    rewrite Hiff. split; (intros [_ H]; split; [reflexivity || discriminate|exact H]).
Qed.

End MainProperties.

(* ================================================================== *)
(** ** Documents that pass *)

Section AcceptedFacts.
Context {rt : Runtime}.

Lemma clean_seq (m1 m2 : M unit) : clean m1 -> clean m2 -> clean (m1 ;; m2).
Proof. intros [w1 H1] [w2 H2]. exists (w1 ++ w2). exact (pushes_seq H1 H2). Qed.

Lemma clean_of_total (m : M unit) :
  emits (fun _ => False) (fun _ => True) m -> total m -> clean m.
Proof.
  intros He Ht. destruct (emits_total He Ht) as (de & dw & [] & Hp & Hf & _).
  destruct de as [|e de]; [|inversion Hf; contradiction]. now exists dw.
Qed.

Lemma clean_run (m : M unit) :
  clean m -> exists dw, m no_findings = (Findings [] dw, Normal tt).
Proof. intros [dw H]. exists dw. exact (pushes_run H). Qed.

(** *** Each check, on a truthy field *)

Lemma clean_version_iff (metadata : json) :
  truthy (field_value metadata (js "hc_version")) = true ->
  clean (check_version metadata) <-> printable (field_value metadata (js "hc_version")).
Proof.
  intros Ht. pose proof (truthy_nonnull _ Ht) as Hn. split.
  - intros H. apply clean_run in H as [dw H].
    unfold check_version, bind, eval in H. rewrite !(Get_nonnull _ Hn), Ht in H.
    destruct (field_value metadata (js "hc_version")) as [[| | |w| |]|] eqn:Ev;
      try (eexists; reflexivity);
      cbn [strict_ne] in H;
      destruct (ToString _) as [found|e] eqn:Ef; try discriminate H;
      now exists found.
  - intros Hp. apply clean_of_total; [|now apply check_version_total].
    unfold check_version. classify; exact I.
Qed.

Lemma clean_type_iff (metadata : json) :
  truthy (field_value metadata (js "hc_type")) = true ->
  clean (check_type metadata)
  <-> Array_includes VALID_TYPES (field_value metadata (js "hc_type")) = true.
Proof.
  intros Ht. pose proof (truthy_nonnull _ Ht) as Hn. split.
  - intros H. apply clean_run in H as [dw H].
    unfold check_type, bind, eval in H. rewrite !(Get_nonnull _ Hn), Ht in H.
    destruct (Array_includes _ _); [reflexivity|]. cbn [negb] in H.
    destruct (ToString _) as [found|e]; discriminate H.
  - intros Hi. exists []. now apply check_type_valid.
Qed.

Lemma clean_artifact_id_iff (metadata : json) :
  truthy (field_value metadata (js "artifact_id")) = true ->
  clean (check_artifact_id metadata)
  <-> printable (field_value metadata (js "artifact_id")).
Proof.
  intros Ht. pose proof (truthy_nonnull _ Ht) as Hn. split.
  - intros H. apply clean_run in H as [dw H].
    unfold check_artifact_id, bind, eval in H. rewrite !(Get_nonnull _ Hn), Ht in H.
    destruct (ToString _) as [found|e] eqn:Ef; [now exists found|discriminate H].
  - intros Hp. apply clean_of_total; [|now apply check_artifact_id_total].
    unfold check_artifact_id. classify; exact I.
Qed.

Lemma clean_timestamp_iff (metadata : json) (tsField : jsstring) :
  truthy (field_value metadata tsField) = true ->
  clean (check_timestamp metadata tsField)
  <-> Date_isNaN (field_value metadata tsField) = Normal false.
Proof.
  intros Ht. pose proof (truthy_nonnull _ Ht) as Hn. split.
  - intros H. apply clean_run in H as [dw H].
    unfold check_timestamp, bind, eval in H. rewrite !(Get_nonnull _ Hn), Ht in H.
    destruct (Date_isNaN _) as [[|]|e]; [|reflexivity|discriminate H].
    destruct (ToString _) as [found|e]; discriminate H.
  - intros Hd. exists []. eapply pushes_ext; [|apply pushes_ret].
    intros s. unfold check_timestamp, bind, eval.
    rewrite !(Get_nonnull _ Hn), Ht, Hd. reflexivity.
Qed.

Lemma clean_summary_iff (metadata : json) :
  truthy (field_value metadata (js "summary")) = true ->
  clean (check_summary metadata)
  <-> exists summary, field_value metadata (js "summary") = Some (JStr summary).
Proof.
  intros Ht. pose proof (truthy_nonnull _ Ht) as Hn. split.
  - intros H. apply clean_run in H as [dw H].
    unfold check_summary, bind, eval in H. rewrite !(Get_nonnull _ Hn), Ht in H.
    destruct (field_value metadata (js "summary")) as [[| | |w| |]|];
      try discriminate H. now exists w.
  - intros [summary Hv]. eexists. eapply pushes_ext; [|apply pushes_when_warning].
    intros s. unfold check_summary, bind, eval.
    rewrite !(Get_nonnull _ Hn), Ht, Hv. reflexivity.
Qed.

Lemma clean_required_iff (metadata : json) :
  clean (check_required_fields metadata)
  <-> forall field, In field REQUIRED_METADATA_FIELDS ->
        truthy (field_value metadata field) = true.
Proof.
  split.
  - intros [dw Hr].
    assert (Hn : metadata <> JNull).
    { intros ->. destruct (pushes_unique Hr check_required_fields_null) as (_ & _ & E).
      discriminate. }
    destruct (pushes_unique Hr (check_required_fields_pushes Hn)) as (E & _).
    symmetry in E. apply map_eq_nil in E. now apply missing_fields_nil.
  - intros H.
    assert (Hn : metadata <> JNull).
    { eapply truthy_nonnull. apply H. now left. }
    pose proof (check_required_fields_pushes Hn) as Hr.
    rewrite (missing_fields_all _ H) in Hr. now exists [].
Qed.

(** The field checks are clean exactly on accepted metadata. *)
Lemma clean_accepted (metadata : json) :
  clean (check_required_fields metadata ;; later_checks metadata)
  <-> accepted metadata.
Proof.
  unfold accepted. split.
  - intros H.
    apply clean_seq_inv in H as [Hr H]; [|framing|framing].
    unfold later_checks in H.
    apply clean_seq_inv in H as [Hv H]; [|framing|framing].
    apply clean_seq_inv in H as [Hty H]; [|framing|framing].
    apply clean_seq_inv in H as [Hi H]; [|framing|framing].
    apply clean_seq_inv in H as [Hts Hs]; [|framing|framing].
    rewrite check_timestamps_unfold in Hts.
    apply clean_seq_inv in Hts as [Hc Hts];
      [|unfold check_timestamp; framing|unfold check_timestamp; framing].
    apply clean_seq_inv in Hts as [Hu _];
      [|unfold check_timestamp; framing|framing].
    pose proof (proj1 (clean_required_iff metadata) Hr) as Hf. clear Hr.
    rename Hf into Hr.
    split; [exact Hr|].
    split; [apply clean_version_iff; [apply Hr; required_field|exact Hv]|].
    split; [apply clean_type_iff; [apply Hr; required_field|exact Hty]|].
    split; [apply clean_artifact_id_iff; [apply Hr; required_field|exact Hi]|].
    split; [apply clean_timestamp_iff; [apply Hr; required_field|exact Hc]|].
    split; [apply clean_timestamp_iff; [apply Hr; required_field|exact Hu]|].
    apply clean_summary_iff; [apply Hr; required_field|exact Hs].
  - intros (Hr & Hv & Hty & Hi & Hc & Hu & Hs).
    apply clean_seq; [now apply clean_required_iff|]. unfold later_checks.
    apply clean_seq; [apply clean_version_iff; [apply Hr; required_field|exact Hv]|].
    apply clean_seq; [apply clean_type_iff; [apply Hr; required_field|exact Hty]|].
    apply clean_seq; [apply clean_artifact_id_iff; [apply Hr; required_field|exact Hi]|].
    apply clean_seq; [|apply clean_summary_iff; [apply Hr; required_field|exact Hs]].
    rewrite check_timestamps_unfold.
    apply clean_seq; [apply clean_timestamp_iff; [apply Hr; required_field|exact Hc]|].
    apply clean_seq; [apply clean_timestamp_iff; [apply Hr; required_field|exact Hu]|].
    exists []. apply pushes_ret.
Qed.

Lemma filter_nil_iff {A} (f : A -> bool) (l : list A) :
  filter f l = [] <-> forall x, In x l -> f x = false.
Proof.
  induction l as [|a l IH]; cbn [filter]; [split; [intros _ x []|reflexivity]|].
  destruct (f a) eqn:E.
  - split; [discriminate|]. intros H. specialize (H a (or_introl eq_refl)). congruence.
  - rewrite IH. split.
    + intros H x [<-|Hx]; [exact E|now apply H].
    + intros H x Hx. apply H. now right.
Qed.

(** The metadata checks leave no error exactly when no metadata is
    extracted or what is extracted parses to accepted metadata. *)
Lemma metadata_errors_nil (content : jsstring) :
  errors (metadata_findings content) = []
  <-> forall text, metadata_block content = Some text ->
        exists metadata, JSON_parse text = Some metadata /\ accepted metadata.
Proof.
  destruct (metadata_block content) as [text|] eqn:Hb.
  2:{ split; [intros _ text E; discriminate E|intros _].
      unfold metadata_findings, check_metadata. unfold metadata_block in Hb.
      now rewrite Hb. }
  destruct (JSON_parse text) as [metadata|] eqn:Hp.
  - split.
    + intros He text' E. injection E as <-. exists metadata. split; [exact Hp|].
      apply clean_accepted. exact (passing_metadata_clean content Hb Hp He).
    + intros H. destruct (H text eq_refl) as (metadata' & E & Ha).
      rewrite Hp in E. injection E as <-.
      apply clean_accepted in Ha as [dw Ha].
      now rewrite (metadata_findings_normal content Hb Hp Ha).
  - split.
    + intros He. unfold metadata_findings, check_metadata in He.
      unfold metadata_block in Hb. rewrite Hb in He.
      unfold try_catch, metadata_checks, parse_metadata, bind in He.
      rewrite Hp in He. discriminate He.
    + intros H. destruct (H text eq_refl) as (metadata' & E & _).
      rewrite Hp in E. discriminate E.
Qed.

(** X14: a document has an empty error array, and so passes, exactly when it
    begins with the doctype, contains the identifier attribute of each of
    the three blocks, and either has no metadata element to extract or has
    one whose text parses to accepted metadata. *)
Theorem passes_iff (content : jsstring) :
  errors (validate_findings content) = []
  <-> startsWith (String_toLowerCase (trim content)) (js "<!doctype html>") = true
      /\ (forall blockId, In blockId REQUIRED_BLOCKS ->
            includes content (idAttribute blockId) = true)
      /\ (forall text, metadata_block content = Some text ->
            exists metadata, JSON_parse text = Some metadata /\ accepted metadata).
Proof.
  rewrite validate_errors, <- metadata_errors_nil.
  assert (Hd : doctype_errors content = []
               <-> startsWith (String_toLowerCase (trim content)) (js "<!doctype html>")
                   = true).
  { unfold doctype_errors. destruct (startsWith _ _); split; congruence. }
  assert (Hblocks : map missingBlock (missing_blocks content) = []
                    <-> forall blockId, In blockId REQUIRED_BLOCKS ->
                          includes content (idAttribute blockId) = true).
  { unfold missing_blocks. split.
    - intros E blockId Hin. apply map_eq_nil in E.
      apply (proj1 (filter_nil_iff _ _) E) in Hin. now apply negb_false_iff in Hin.
    - intros H.
      replace (filter _ REQUIRED_BLOCKS) with (@nil jsstring); [reflexivity|].
      symmetry. apply filter_nil_iff. intros x Hx. apply negb_false_iff. now apply H. }
  rewrite <- Hd, <- Hblocks. split.
  - intros E. apply app_eq_nil in E as [E1 E]. apply app_eq_nil in E as [E2 E3]. auto.
  - intros (-> & -> & ->). reflexivity.
Qed.

(** X5: metadata other than [null] none of whose required fields is truthy (an
    empty object, a number, a string, an array) is reported with the seven
    missing-field errors, in the order of the list, and nothing else: no
    later check has anything to look at, and none throws. *)
Theorem fieldless_metadata_errors (content text : jsstring) (metadata : json) :
  metadata_block content = Some text ->
  JSON_parse text = Some metadata ->
  metadata <> JNull ->
  (forall field, In field REQUIRED_METADATA_FIELDS ->
     truthy (field_value metadata field) = false) ->
  metadata_findings content
  = Findings (map missingField REQUIRED_METADATA_FIELDS) [].
Proof.
  intros Hb Hp Hn Hf.
  assert (Hm : missing_fields metadata = REQUIRED_METADATA_FIELDS).
  { unfold missing_fields.
    assert (G : forall l, incl l REQUIRED_METADATA_FIELDS ->
                  filter (fun field => negb (truthy (field_value metadata field))) l = l).
    { induction l as [|x l IH]; intros Hl; [reflexivity|]. cbn [filter].
      rewrite (Hf x (Hl x (or_introl eq_refl))). cbn [negb]. f_equal.
      apply IH. intros y Hy. apply Hl. now right. }
    apply G, incl_refl. }
  assert (Hlater : pushes (later_checks metadata) [] [] (Normal tt)).
  { eapply pushes_ext; [|apply pushes_ret]. intros s.
    unfold later_checks, check_version, check_type, check_artifact_id,
      check_timestamps, check_summary, bind, eval, ret. cbn [for_of].
    unfold bind, eval, ret.
    rewrite !(Get_nonnull _ Hn).
    rewrite !Hf by required_field. reflexivity. }
  pose proof (pushes_seq (check_required_fields_pushes Hn) Hlater) as H.
  rewrite (metadata_findings_normal content Hb Hp H), Hm.
  now rewrite app_nil_r.
Qed.

End AcceptedFacts.

(* ================================================================== *)
(** ** The word count of the summary *)

Section SummaryCount.
Context {rt : Runtime}.

(** The summary check on any non-empty string: the words counted are one
    more than the runs of white space. *)
Lemma check_summary_runs (metadata : json) (summary : jsstring) :
  field_value metadata (js "summary") = Some (JStr summary) ->
  summary <> [] ->
  pushes (check_summary metadata) []
         (if 1 + count_runs summary false <? 10
          then [shortSummary (1 + count_runs summary false)] else [])
         (Normal tt).
Proof.
  intros Hv Hne. eapply pushes_ext; [|apply pushes_when_warning].
  pose proof (field_value_nonnull _ Hv) as Hn.
  intros s. unfold check_summary, bind, eval.
  rewrite !(Get_nonnull _ Hn), Hv.
  pose proof (split_length Hne) as Hl.
  destruct summary as [|a summary']; [contradiction|].
  cbn [truthy summary_split]. now rewrite Hl.
Qed.

(** X10: the word count of the summary check is one more than the number of
    runs of white space in the summary, whether or not the summary begins
    or ends with white space: when the checks before it complete and the
    summary is a non-empty string, a short-summary warning is pushed exactly
    when that number is below 10, and it shows that number. *)
Theorem summary_warning_counts_runs
  (content text : jsstring) (metadata : json) (summary : jsstring) :
  metadata_block content = Some text ->
  JSON_parse text = Some metadata ->
  (forall field,
     In field [js "hc_version"; js "hc_type"; js "artifact_id";
               js "created"; js "updated"] ->
     printable (field_value metadata field)) ->
  field_value metadata (js "summary") = Some (JStr summary) ->
  summary <> [] ->
  ((exists n, In (shortSummary n) (warnings (validate_findings content)))
   <-> 1 + count_runs summary false < 10)
  /\ (1 + count_runs summary false < 10 ->
      In (shortSummary (1 + count_runs summary false))
         (warnings (validate_findings content))).
Proof.
  intros Hb Hp Hprint Hv Hne.
  pose proof (field_value_nonnull _ Hv) as Hn.
  destruct (step_pushes (m:=check_version metadata)) as (d1 & w1 & H1 & W1);
    [unfold check_version; classify; auto; reflexivity
    |apply (check_version_total Hn); apply Hprint; required_field|].
  destruct (step_pushes (m:=check_type metadata)) as (d2 & w2 & H2 & W2);
    [unfold check_type; classify; auto; reflexivity
    |apply (check_type_total Hn); apply Hprint; required_field|].
  destruct (step_pushes (m:=check_artifact_id metadata)) as (d3 & w3 & H3 & W3);
    [unfold check_artifact_id; classify; auto; reflexivity
    |apply (check_artifact_id_total Hn); apply Hprint; required_field|].
  destruct (step_pushes (m:=check_timestamps metadata)) as (d4 & w4 & H4 & W4);
    [unfold check_timestamps; classify; auto; reflexivity
    |apply (check_timestamps_total Hn); apply Hprint; required_field|].
  pose proof (check_summary_runs metadata Hv Hne) as H5.
  pose proof (pushes_seq (check_required_fields_pushes Hn)
               (pushes_seq H1 (pushes_seq H2 (pushes_seq H3 (pushes_seq H4 H5)))))
    as H.
  destruct (content_pushes otherThanSummary content) as (wc & Hc & Wc);
    try reflexivity.
  set (n := 1 + count_runs summary false) in *.
  assert (Hw : warnings (validate_findings content)
               = w1 ++ w2 ++ w3 ++ w4
                 ++ (if n <? 10 then [shortSummary n] else [])
                 ++ wc).
  { rewrite validate_findings_stages.
    rewrite (metadata_findings_normal content Hb Hp H).
    unfold content_findings. rewrite (pushes_run Hc). simpl.
    now rewrite <- !app_assoc. }
  assert (Hin : n < 10 -> In (shortSummary n) (warnings (validate_findings content))).
  { intros Hlt. rewrite Hw. apply Nat.ltb_lt in Hlt. rewrite Hlt.
    do 4 (apply in_or_app; right). apply in_or_app. left. now left. }
  split; [|exact Hin]. split.
  - intros [k Hk]. rewrite Hw in Hk.
    destruct (n <? 10) eqn:E; [now apply Nat.ltb_lt|]. exfalso.
    assert (Hall : Forall otherThanSummary (w1 ++ w2 ++ w3 ++ w4 ++ [] ++ wc))
      by (repeat (apply Forall_app; split); auto).
    rewrite Forall_forall in Hall.
    exact (shortSummary_not_other (Hall _ Hk)).
  - intros Hlt. exists n. now apply Hin.
Qed.

End SummaryCount.

(* ================================================================== *)
(** ** The error of the catch *)

Section CatchProperties.
Context {rt : Runtime}.

(** X11: the error of the [catch] is pushed at most once, and nothing is pushed
    onto the error array after it: an invalid-JSON error in the array is its
    last entry, and no entry before it is an invalid-JSON error. *)
Theorem invalid_json_error_last (content message : jsstring) :
  In (invalidJson message) (errors (validate_findings content)) ->
  exists others,
    errors (validate_findings content) = others ++ [invalidJson message]
    /\ forall other, ~ In (invalidJson other) others.
Proof.
  set (P := js "Invalid JSON").
  assert (HP : forall m, startsWith (invalidJson m) P = true) by reflexivity.
  rewrite validate_errors, app_assoc.
  pose proof (structure_errors_lack (prefix:=P) content eq_refl
                (fun _ => eq_refl)) as Hs.
  set (structure := doctype_errors content ++ map missingBlock (missing_blocks content))
    in *.
  intros Hin.
  assert (Hlast : forall de e,
            Forall (lacks P) de ->
            errors (metadata_findings content) = de ++ [invalidJson (Error_message e)] ->
            exists others,
              structure ++ errors (metadata_findings content)
              = others ++ [invalidJson message]
              /\ forall other, ~ In (invalidJson other) others).
  { intros de e Hde E. rewrite E in *.
    assert (Hout : forall other, ~ In (invalidJson other) (structure ++ de)).
    { intros other. eapply lacks_not_In; [apply HP|].
      apply Forall_app. now split. }
    exists (structure ++ de). split; [|exact Hout].
    rewrite app_assoc in Hin. apply in_app_or in Hin as [Hin|[Hin|[]]].
    - now apply Hout in Hin.
    - now rewrite app_assoc, Hin. }
  destruct (metadata_block content) as [text|] eqn:Hb.
  2:{ exfalso. unfold metadata_findings, check_metadata in Hin.
      unfold metadata_block in Hb. rewrite Hb in Hin. cbn [fst ret errors] in Hin.
      rewrite app_nil_r in Hin. revert Hin. eapply lacks_not_In; [apply HP|exact Hs]. }
  destruct (JSON_parse text) as [metadata|] eqn:Hp.
  - assert (Hall : emits (lacks P) (fun _ => True)
                     (check_required_fields metadata ;; later_checks metadata)).
    { unfold_checks. classify; auto; reflexivity. }
    destruct Hall as (de & dw & c & H & Hde & _).
    pose proof (metadata_findings_parsed content Hb Hp H) as E.
    destruct c as [[]|e].
    + exfalso. rewrite E in Hin. cbn [errors] in Hin. rewrite app_nil_r in Hin.
      revert Hin. eapply lacks_not_In; [apply HP|].
      apply Forall_app. now split.
    + apply (Hlast de e Hde). now rewrite E.
  - apply (Hlast [] (SyntaxError text)); [constructor|].
    unfold metadata_findings, check_metadata. unfold metadata_block in Hb. rewrite Hb.
    unfold try_catch, metadata_checks, parse_metadata, bind. rewrite Hp. reflexivity.
Qed.

End CatchProperties.
(* ================================================================== *)
(** ** The properties at concrete documents *)

#[local] Existing Instance Host.node.

(** The batch [good.html bad.html] of the example directory is validated
    and reported in full. *)
Lemma batch_of_two_reported :
  main Examples.directory [js "good.html"; js "bad.html"]
  = (flat_map (document_report Examples.directory) [js "good.html"; js "bad.html"],
     ExitWith (batch_code Examples.directory [js "good.html"; js "bad.html"])).
Proof.
  refine (proj1 (@batch_runs_until_unreadable Host.node Examples.directory
                   [js "good.html"; js "bad.html"] _) _).
  - intros p [<-|[<-|[]]]; eexists; reflexivity.
  - discriminate.
Defined.

(** A file that cannot be read, first in a batch of two: the run ends with
    the I/O failure, and the second file is never validated or reported. *)
Lemma batch_stops_at_unreadable_file :
  main Examples.directory [js "missing.html"; js "good.html"]
  = ([LogError (js "Error reading file: ENOENT: no such file or directory, open 'missing.html'")],
     ExitWith 1).
Proof. vm_compute. reflexivity. Qed.

Lemma widget_fails_with_one_error :
  exists out result,
    validate Examples.directory (js "bad.html") = (out, Returned result)
    /\ (result = 1%Z <-> errors (validate_findings Examples.widget) <> [])
    /\ (result = 0%Z <-> errors (validate_findings Examples.widget) = []).
Proof.
  apply (@verdict_failed_iff_errors Host.node Examples.directory
           (js "bad.html") Examples.widget).
  reflexivity.
Defined.



Lemma bare_doctype_skips_metadata :
  metadata_block (js "<!DOCTYPE html>") = None
  /\ metadata_findings (js "<!DOCTYPE html>") = no_findings
  /\ In (missingBlock (js "hc-metadata"))
        (errors (validate_findings (js "<!DOCTYPE html>"))).
Proof.
  apply (@absent_identifier_skips_metadata Host.node (js "<!DOCTYPE html>")).
  vm_compute. reflexivity.
Defined.

(** The metadata identifier on a [div]: nothing is extracted, the metadata
    checks are skipped, and no error at all is pushed. *)
Lemma metadata_skipped_without_error :
  includes Examples.metadataOnDiv (idAttribute (js "hc-metadata")) = true
  /\ metadata_block Examples.metadataOnDiv = None
  /\ errors (validate_findings Examples.metadataOnDiv) = [].
Proof. repeat split; vm_compute; reflexivity. Qed.






(** The passing document with an empty type: the type is reported missing,
    the field being falsy. *)
Lemma empty_type_field_reported :
  In (missingField (js "hc_type")) (errors (validate_findings Examples.emptyType))
  <-> truthy (field_value (Examples.parsed (Examples.metadataWith "''" Examples.tenWords))
                          (js "hc_type")) = false.
Proof.
  refine (@required_fields_reported Host.node Examples.emptyType
            (Examples.text (Examples.metadataWith "''" Examples.tenWords))
            (Examples.parsed (Examples.metadataWith "''" Examples.tenWords))
            (js "hc_type") _ _ _ _).
  - vm_compute. reflexivity.
  - vm_compute. reflexivity.
  - vm_compute. discriminate.
  - right. left. reflexivity.
Defined.

(** The metadata text of the passing document is what lies between the
    opening tag of the metadata element and the closing tag that follows. *)
Lemma passing_metadata_text_shape :
  (exists before attrs attrs' after,
     Examples.passing
     = before ++ js "<script" ++ attrs ++ idAttribute (js "hc-metadata") ++ attrs'
       ++ js ">" ++ Examples.text (Examples.metadataWith "'skill'" Examples.tenWords)
       ++ js "</script>" ++ after
     /\ forallb notGt attrs = true /\ forallb notGt attrs' = true
     /\ forall a b,
          Examples.text (Examples.metadataWith "'skill'" Examples.tenWords) = a ++ b ->
          b <> [] ->
          startsWith (b ++ js "</script>" ++ after) (js "</script>") = false)
  /\ includes (Examples.text (Examples.metadataWith "'skill'" Examples.tenWords))
              (js "</script>") = false.
Proof.
  refine (@extracted_text_shape (js "<script") (js "hc-metadata") (js "</script>")
            Examples.passing
            (Examples.text (Examples.metadataWith "'skill'" Examples.tenWords)) _ _).
  - discriminate.
  - vm_compute. reflexivity.
Defined.

(** A document whose version is [1.0] gets the version warning that shows
    [1.0]. *)
Lemma old_version_warned :
  In (versionWarning (js "1.0")) (warnings (validate_findings FieldExamples.oldVersion))
  <-> truthy (field_value (Examples.parsed FieldExamples.oldVersionMetadata)
                          (js "hc_version")) = true
      /\ strict_ne (field_value (Examples.parsed FieldExamples.oldVersionMetadata)
                                (js "hc_version")) (js "1.1") = true
      /\ ToString (field_value (Examples.parsed FieldExamples.oldVersionMetadata)
                               (js "hc_version")) = Normal (js "1.0").
Proof.
  refine (@version_warning_iff Host.node FieldExamples.oldVersion
            (Examples.text FieldExamples.oldVersionMetadata)
            (Examples.parsed FieldExamples.oldVersionMetadata)
            (js "1.0") _ _ _).
  - vm_compute. reflexivity.
  - vm_compute. reflexivity.
  - vm_compute. discriminate.
Defined.

(** The invalid-type error of the document of type [widget] goes back to
    its metadata. *)
Lemma widget_error_warranted :
  exists text metadata,
    metadata_block Examples.widget = Some text
    /\ JSON_parse text = Some metadata
    /\ truthy (field_value metadata (js "hc_type")) = true
    /\ Array_includes VALID_TYPES (field_value metadata (js "hc_type")) = false
    /\ ToString (field_value metadata (js "hc_type")) = Normal (js "widget").
Proof.
  refine (@invalid_type_only_when_warranted Host.node Examples.widget (js "widget") _).
  vm_compute. left. reflexivity.
Defined.

(** An identifier in upper case gets the format warning, not being of the
    form the pattern asks for. *)
Lemma upper_case_identifier_warned :
  In idFormatWarning (warnings (validate_findings FieldExamples.upperCaseId))
  <-> ~ conforming (js "HC-Skill-Foo-1").
Proof.
  refine (@artifact_id_warning_iff Host.node FieldExamples.upperCaseId
            (Examples.text FieldExamples.upperCaseIdMetadata)
            (Examples.parsed FieldExamples.upperCaseIdMetadata)
            (js "HC-Skill-Foo-1") _ _ _ _ _ _).
  - vm_compute. reflexivity.
  - vm_compute. reflexivity.
  - eexists. vm_compute. reflexivity.
  - eexists. vm_compute. reflexivity.
  - vm_compute. reflexivity.
  - discriminate.
Defined.

(** The invalid-timestamp error of a document created at [not a date] goes
    back to its metadata. *)
Lemma bad_created_error_warranted :
  exists text metadata,
    metadata_block FieldExamples.badCreated = Some text
    /\ JSON_parse text = Some metadata
    /\ truthy (field_value metadata (js "created")) = true
    /\ Date_isNaN (field_value metadata (js "created")) = Normal true
    /\ ToString (field_value metadata (js "created")) = Normal (js "not a date").
Proof.
  refine (@invalid_timestamp_only_when_warranted Host.node FieldExamples.badCreated
            (js "created") (js "not a date") _ _).
  - left. reflexivity.
  - vm_compute. left. reflexivity.
Defined.

(** A summary of nine tokens after a leading space has nine runs of white
    space, so ten words are counted and no warning is pushed. *)
Lemma leading_space_counts_as_word :
  ((exists n, In (shortSummary n)
                 (warnings (validate_findings Examples.nineTokensAfterSpace)))
   <-> 1 + count_runs (js " one two three four five six seven eight nine") false < 10)
  /\ (1 + count_runs (js " one two three four five six seven eight nine") false < 10 ->
      In (shortSummary
            (1 + count_runs (js " one two three four five six seven eight nine") false))
         (warnings (validate_findings Examples.nineTokensAfterSpace))).
Proof.
  refine (@summary_warning_counts_runs Host.node Examples.nineTokensAfterSpace
            (Examples.text (Examples.metadataWith "'skill'" Examples.nineWordsAfterSpace))
            (Examples.parsed (Examples.metadataWith "'skill'" Examples.nineWordsAfterSpace))
            (js " one two three four five six seven eight nine") _ _ _ _ _).
  - vm_compute. reflexivity.
  - vm_compute. reflexivity.
  - intros field Hin. simpl in Hin.
    destruct Hin as [<-|[<-|[<-|[<-|[<-|[]]]]]]; eexists; vm_compute; reflexivity.
  - vm_compute. reflexivity.
  - discriminate.
Defined.

(** Metadata that is the empty object: seven missing-field errors and
    nothing else. *)
Lemma empty_object_misses_every_field :
  metadata_findings FieldExamples.emptyObject
  = Findings (map missingField REQUIRED_METADATA_FIELDS) [].
Proof.
  refine (@fieldless_metadata_errors Host.node FieldExamples.emptyObject
            (js "{}") (JObj []) _ _ _ _).
  - vm_compute. reflexivity.
  - vm_compute. reflexivity.
  - discriminate.
  - intros field _. reflexivity.
Defined.

(** The one error of the document whose metadata is not JSON is the last
    entry of its error array. *)
Lemma broken_json_error_last :
  exists others,
    errors (validate_findings Examples.brokenJson)
    = others ++ [invalidJson (js "Unexpected token")]
    /\ forall other, ~ In (invalidJson other) others.
Proof.
  refine (@invalid_json_error_last Host.node Examples.brokenJson
            (js "Unexpected token") _).
  vm_compute. left. reflexivity.
Defined.
